(** * Omega-Robot: the [omega] cog (src/cogs/omega.py)

    A shallow embedding of the issue-reference cog: the two regular
    expressions that recognise colour codes and issue references, the
    renderer [make_embed] with its two truncation rules, the registry of
    dismissible embeds ([Omega.issue_embeds]) and the two event handlers
    [on_message] and [on_raw_reaction_add].

    Python values are modelled as follows.
    - [str] is a list of Unicode code points ([N]); [len] is [length];
      a value the tracker may send as [null] is an [option].
    - [int] is [Z] where the code computes with it, [N] for counters the
      tracker only ever reports as naturals, [nat] for list indices.
    - [dict] is a [gmap]; a JSON object with a fixed shape is a record.
    - an exception is a [Raise] outcome; awaited calls on the platform and
      on the HTTP APIs are answered by an environment that sees the whole
      history of actions performed so far. *)

From Stdlib Require Import ZArith NArith List Ascii String Lia.
From Stdlib Require Import DecimalString DecimalN DecimalPos.
From Equations Require Import Equations.
From stdpp Require Import base list gmap.

Local Open Scope nat_scope.

(** ** Python strings *)

Module Py.

Definition char := N.
Definition str := list char.

(** An ASCII literal of the source. *)
Definition lit (s : string) : str :=
  map N_of_ascii (list_ascii_of_string s).

(** [str(n)] of a non-negative [int], as an f-string renders it. *)
Definition str_of_int (n : N) : str :=
  lit (NilZero.string_of_uint (N.to_uint n)).

(** [sep.join(l)]. *)
Fixpoint join (sep : str) (l : list str) : str :=
  match l with
  | [] => []
  | x :: t =>
      match t with
      | [] => x
      | _ :: _ => x ++ sep ++ join sep t
      end
  end.

(** [c in s]. *)
Definition contains (c : char) (s : str) : bool :=
  existsb (N.eqb c) s.

(** [s.lstrip(chars)], [s.rstrip(chars)] and [s.strip(chars)]. *)
Fixpoint lstrip (chars : str) (s : str) : str :=
  match s with
  | [] => []
  | c :: t => if contains c chars then lstrip chars t else s
  end.

Definition rstrip (chars : str) (s : str) : str :=
  rev (lstrip chars (rev s)).

Definition strip (chars : str) (s : str) : str :=
  rstrip chars (lstrip chars s).

(** [l.pop(i)] for [0 <= i]: [None] stands for IndexError. *)
Definition pop {A} (i : nat) (l : list A) : option (A * list A) :=
  match l !! i with
  | Some x => Some (x, delete i l)
  | None => None
  end.

(** [l.insert(i, x)] for [0 <= i]: an index past the end appends. *)
Definition insert_at {A} (i : nat) (x : A) (l : list A) : list A :=
  take i l ++ x :: drop i l.

Definition nl : str := [10%N].

End Py.

Import Py.

Arguments lit : simpl never.
Arguments str_of_int : simpl never.

(** ** Outcomes *)

Inductive exn :=
| IndexError
| KeyError
| TypeError
| ValueError
| ClientError
| PlatformError (code : N).

Inductive outcome (A : Type) :=
| Ok (a : A)
| Raise (e : exn).
Arguments Ok {A} a.
Arguments Raise {A} e.

(** ** The Commits truncation loop (make_embed, lines 91-93)

    [while diff > 0: line = formatted.pop(len(formatted) // 2);
                     diff -= len(line) + 1]
    The state is the pair [(formatted, diff)]; a [pop] on an empty list
    raises IndexError. *)

Definition loop_body (formatted : list str) (diff : Z)
  : outcome (list str * Z) :=
  match pop (length formatted / 2) formatted with
  | Some (line, rest) => Ok (rest, (diff - (Z.of_nat (length line) + 1))%Z)
  | None => Raise IndexError
  end.

Lemma pop_length {A} (i : nat) (l : list A) x rest :
  pop i l = Some (x, rest) -> length rest < length l.
Proof.
  unfold pop. destruct (l !! i) eqn:E; [|discriminate].
  intros [= <- <-]. pose proof (lookup_lt_Some _ _ _ E).
  rewrite length_delete by eauto. lia.
Qed.

Lemma loop_body_length formatted diff rest diff' :
  loop_body formatted diff = Ok (rest, diff') ->
  length rest < length formatted.
Proof.
  unfold loop_body.
  destruct (pop _ formatted) as [[line r]|] eqn:E; [|discriminate].
  intros [= <- _]. eapply pop_length; eauto.
Qed.

Definition inspect {A} (a : A) : {b | a = b} := exist _ a eq_refl.

Equations? while_diff (formatted : list str) (diff : Z)
  : outcome (list str * Z) by wf (length formatted) lt :=
  while_diff formatted diff with (0 <? diff)%Z := {
    | false => Ok (formatted, diff)
    | true with inspect (loop_body formatted diff) := {
        | exist _ (Ok (rest, diff')) E => while_diff rest diff'
        | exist _ (Raise e) _ => Raise e } }.
Proof. eapply loop_body_length; eauto. Qed.


(** ** JSON records (spec section 3) *)

Record User := {
  login : str;
  user_html_url : str;
  avatar_url : str }.

Record PullRequest := { pr_url : str }.

Record Label := { label_name : str }.

(** An issue as the tracker returns it.  [body] is [null] ([None]) for
    an issue without text; [closed_at] and [closed_by] are [null] on an
    open issue. *)
Record IssueData := {
  title : str;
  html_url : str;
  body : option str;
  user : User;
  locked : bool;
  pull_request : option PullRequest;
  comments : N;
  state : str;
  closed_at : option str;
  closed_by : option User;
  labels : list Label }.

(** One element of the array the commits request answers;
    [committer_login] is [commit['committer']['login']], and [None]
    when [commit['committer']] is [null] (the tracker knows no account
    for the commit). *)
Record Commit := {
  sha : str;
  commit_html_url : str;
  commit_message : str;
  committer_login : option str }.

(** What [response.json()] gives for the commits request, whose status
    the code does not look at: the array of the commits, or the object
    of an answer that is no success (its keys, in order). *)
Inductive CommitsJson :=
| CommitArray (commits : list Commit)
| JsonObject (keys : list str).

(** A colour record: [component fmt letter] is [data[fmt][letter]]. *)
Record ColorData := {
  name_value : str;
  component : str -> char -> str }.

Record Response (A : Type) := {
  status : N;
  json : A }.
Arguments status {A} r.
Arguments json {A} r.

(** ** discord.Embed *)

Record Author := {
  author_name : str;
  author_url : str;
  author_icon_url : str }.

Record Field := {
  name : str;
  value : str }.

(** [description] is what the constructor was given: [None] for
    [description=None]. *)
Record Embed := {
  embed_title : str;
  embed_url : option str;
  description : option str;
  author : option Author;
  fields : list Field;
  color : option Z }.

Definition set_description (d : str) (e : Embed) : Embed :=
  {| embed_title := embed_title e; embed_url := embed_url e;
     description := Some d; author := author e; fields := fields e;
     color := color e |}.

Definition set_author (a : Author) (e : Embed) : Embed :=
  {| embed_title := embed_title e; embed_url := embed_url e;
     description := description e; author := Some a; fields := fields e;
     color := color e |}.

Definition add_field (n v : str) (e : Embed) : Embed :=
  {| embed_title := embed_title e; embed_url := embed_url e;
     description := description e; author := author e;
     fields := fields e ++ [{| name := n; value := v |}];
     color := color e |}.

(** ** Events, actions and the environment *)

Record Message := {
  content : str;
  human_authored : bool }.

Record RawReaction := {
  user_id : Z;
  emoji_name : str;
  message_id : Z;
  channel_id : Z }.

(** What a handler does to the outside world, in the order it does it. *)
Inductive Action :=
| GetIssue (url : str)
| GetCommits (url : str)
| GetColor (url : str)
| Send (text : option str) (embed : option Embed)
| AddReaction (msg : Z) (emoji : str)
| RemoveReaction (msg : Z) (emoji : str)
| Sleep (seconds : N)
| FetchUser (uid : Z)
| FetchMessage (chan msg : Z)
| DeleteMessage (msg : Z).

(** The outside world.  Each answer is a function of the history of
    actions, the last of which is the request being answered.
    [platform] answers a chat-platform action: the id of the message
    created by a [Send], or the exception the call raises.
    [asleep] lists the reaction events delivered while a handler is
    suspended in [asyncio.sleep].  [closed_at_display] stands for
    [datetime.strptime(_, "%Y-%m-%dT%H:%M:%SZ").strftime("%b. %d %H:%M %Y")],
    [None] being its ValueError.  [commits_response] is what
    [session.get] and [response.json()] come to for the commits of a
    pull request: the JSON value, or the exception one of them raises
    (aiohttp's ClientError for a request that fails or a body that is
    no JSON). *)
Record Env := {
  issue_response : list Action -> Response IssueData;
  commits_response : list Action -> outcome CommitsJson;
  color_response : list Action -> Response ColorData;
  platform : list Action -> outcome Z;
  user_is_bot : list Action -> bool;
  asleep : list Action -> list RawReaction;
  closed_at_display : str -> option str }.

(** The cog's state: [self.issue_embeds] and the history of actions. *)
Record World := {
  issue_embeds : gmap Z Z;
  log : list Action }.

Definition M (A : Type) : Type := World -> outcome A * World.

Definition ret {A} (a : A) : M A := fun w => (Ok a, w).

Definition raise {A} (e : exn) : M A := fun w => (Raise e, w).

Definition bind {A B} (m : M A) (k : A -> M B) : M B :=
  fun w =>
    match m w with
    | (Ok a, w') => k a w'
    | (Raise e, w') => (Raise e, w')
    end.

Notation "x <- m ;; k" := (bind m (fun x => k))
  (at level 63, m at next level, right associativity).
Notation "m1 ;;; m2" := (bind m1 (fun _ => m2))
  (at level 63, right associativity).

Definition lift {A} (r : outcome A) : M A := fun w => (r, w).

Definition record (a : Action) : M unit :=
  fun w => (Ok tt, {| issue_embeds := issue_embeds w; log := log w ++ [a] |}).

Definition history : M (list Action) := fun w => (Ok (log w), w).

(** ** Regular expressions (Python's [re], backtracking semantics)

    Only the operators the three patterns of the cog use.  A regular
    expression is run at position [i] of the subject, [s] being what is
    left of the subject from [i] on; [k] is what must match afterwards.
    The first success in priority order is returned, as [re] does:
    alternatives left to right, greedy repetition longest first. *)

Module Re.

Definition ch (a : ascii) : char := N_of_ascii a.

Definition range (lo hi : ascii) (c : char) : bool :=
  (ch lo <=? c)%N && (c <=? ch hi)%N.

Arguments ch a%_char.
Arguments range (lo hi)%_char c.

Inductive regex :=
| Eps                          (* the empty pattern *)
| Chr (c : char)               (* a literal character *)
| Cls (p : char -> bool)       (* a class [...] *)
| Bol                          (* ^, no MULTILINE *)
| Eol                          (* $, no MULTILINE *)
| Cat (r1 r2 : regex)          (* r1r2 *)
| Alt (r1 r2 : regex)          (* r1|r2 *)
| Opt (r : regex)              (* r? *)
| Plus (p : char -> bool).     (* [...]+ *)

(** [r{n}]. *)
Fixpoint times (n : nat) (r : regex) : regex :=
  match n with
  | 0 => Eps
  | 1 => r
  | S m => Cat r (times m r)
  end.

(** [$] matches at the end of the subject and also just before a line
    feed that ends the subject. *)
Definition at_eol (s : str) : bool :=
  match s with
  | [] => true
  | [c] => (c =? 10)%N
  | _ => false
  end.

Section Exec.
Context {A : Type}.

Fixpoint plus (p : char -> bool) (i : nat) (s : str)
    (k : nat -> str -> option A) : option A :=
  match s with
  | c :: t =>
      if p c then
        match plus p (S i) t k with
        | Some a => Some a
        | None => k (S i) t
        end
      else None
  | [] => None
  end.

Fixpoint exec (r : regex) (i : nat) (s : str)
    (k : nat -> str -> option A) : option A :=
  match r with
  | Eps => k i s
  | Chr c =>
      match s with
      | x :: t => if (x =? c)%N then k (S i) t else None
      | [] => None
      end
  | Cls p =>
      match s with
      | x :: t => if p x then k (S i) t else None
      | [] => None
      end
  | Bol => if Nat.eqb i 0 then k i s else None
  | Eol => if at_eol s then k i s else None
  | Cat r1 r2 => exec r1 i s (fun j t => exec r2 j t k)
  | Alt r1 r2 =>
      match exec r1 i s k with
      | Some a => Some a
      | None => exec r2 i s k
      end
  | Opt r1 =>
      match exec r1 i s k with
      | Some a => Some a
      | None => k i s
      end
  | Plus p => plus p i s k
  end.
End Exec.

(** Where the first match of [r] at position [i] ends. *)
Definition match_at (r : regex) (i : nat) (s : str) : option nat :=
  exec r i s (fun j _ => Some j).

(** [re.match(r, s)], as a truth value. *)
Definition re_match (r : regex) (s : str) : bool :=
  bool_decide (is_Some (match_at r 0 s)).

(** [re.search(r, s)], as a truth value: the positions are tried from
    left to right, the end of the subject included. *)
Fixpoint search_from (r : regex) (i : nat) (s : str) : bool :=
  match match_at r i s with
  | Some _ => true
  | None =>
      match s with
      | [] => false
      | _ :: t => search_from r (S i) t
      end
  end.

Definition re_search (r : regex) (s : str) : bool := search_from r 0 s.

(** [re.findall("(?=(r))", s)], first component of each tuple.  The
    lookahead consumes nothing, so every position of the subject is
    tried once, left to right; group 1 is the text [r] matched. *)
Fixpoint findall_from (r : regex) (i : nat) (s : str) : list str :=
  let here :=
    match match_at r i s with
    | Some j => [take (j - i) s]
    | None => []
    end in
  match s with
  | [] => here
  | _ :: t => here ++ findall_from r (S i) t
  end.

Definition findall_lookahead (r : regex) (s : str) : list str :=
  findall_from r 0 s.

End Re.

Import Re.


(** ["^#([A-Fa-f0-9]{6})$"] (on_message, line 172). *)
Definition hex_digit (c : char) : bool :=
  range "A" "F" c || range "a" "f" c || range "0" "9" c.

Definition color_pattern : regex :=
  Cat Bol (Cat (Chr (ch "#")) (Cat (times 6 (Cls hex_digit)) Eol)).

(** ["(^| )#[0-9]+(e|u|l)?($| )"] (on_message, line 179). *)
Definition digit (c : char) : bool := range "0" "9" c.

Definition issue_pattern : regex :=
  Cat (Alt Bol (Chr (ch " ")))
   (Cat (Chr (ch "#"))
     (Cat (Plus digit)
       (Cat (Opt (Alt (Chr (ch "e")) (Alt (Chr (ch "u")) (Chr (ch "l")))))
            (Alt Eol (Chr (ch " ")))))).

(** The body of the lookahead of ["(?=((^| )#[0-9]+([eul])?($| )))"]
    (get_github_issues, line 21). *)
Definition eul (c : char) : bool :=
  (c =? ch "e")%N || (c =? ch "u")%N || (c =? ch "l")%N.

Definition issue_lookahead : regex :=
  Cat (Alt Bol (Chr (ch " ")))
   (Cat (Chr (ch "#"))
     (Cat (Plus digit)
       (Cat (Opt (Cls eul)) (Alt Eol (Chr (ch " ")))))).


(** ** More of Python's built-ins *)

Definition upper (c : char) : char :=
  if range "a" "z" c then (c - 32)%N else c.

Definition lower (c : char) : char :=
  if range "A" "Z" c then (c + 32)%N else c.

(** [s.capitalize()], on ASCII letters. *)
Definition capitalize (s : str) : str :=
  match s with
  | [] => []
  | c :: t => upper c :: map lower t
  end.

Definition hex_val (c : char) : Z :=
  if range "0" "9" c then Z.of_N c - 48
  else if range "a" "f" c then Z.of_N c - 87
  else Z.of_N c - 55.

(** [int(s, base=16)] on surrounding white space and hexadecimal digits;
    a sign, a [0x] prefix and underscores, which [int] also reads, cannot
    occur in a text that passed [color_pattern]. *)
Definition int16 (s : str) : outcome Z :=
  let t := strip [32; 9; 10; 11; 12; 13]%N s in
  match t with
  | [] => Raise ValueError
  | _ :: _ =>
      if forallb hex_digit t
      then Ok (fold_left (fun acc c => (acc * 16 + hex_val c)%Z) t 0%Z)
      else Raise ValueError
  end.

(** A truth test on [dict.pop(key, None)]. *)
Definition truthy (v : option Z) : bool :=
  match v with
  | Some n => negb (n =? 0)%Z
  | None => false
  end.

(** ** make_embed, pure parts *)

(** [len(s)] and [s[:k]] on the description of an embed: both raise
    TypeError on [None]. *)
Definition len (s : option str) : outcome nat :=
  match s with
  | Some text => Ok (length text)
  | None => Raise TypeError
  end.

Definition slice_to (k : nat) (s : option str) : outcome str :=
  match s with
  | Some text => Ok (take k text)
  | None => Raise TypeError
  end.

(** Lines 78-81: one commit as a line of the Commits field; a [null]
    committer has no ['login'] (TypeError). *)
Definition commit_line (commit : Commit) (committer : str) : str :=
  lit "[`" ++ take 7 (sha commit) ++ lit "`](" ++ commit_html_url commit
  ++ lit ")" ++ lit " " ++ commit_message commit ++ lit " - "
  ++ committer.

Definition format_commit (commit : Commit) : outcome str :=
  match committer_login commit with
  | Some committer => Ok (commit_line commit committer)
  | None => Raise TypeError
  end.

(** Lines 77-82: the list comprehension over [commits_data].  Over an
    array it formats the commits in order, up to the first that raises;
    over an object it runs over the keys, which are strings, and
    [commit['sha']] on a string is a TypeError. *)
Fixpoint format_all (commits : list Commit) : outcome (list str) :=
  match commits with
  | [] => Ok []
  | commit :: rest =>
      match format_commit commit with
      | Ok line =>
          match format_all rest with
          | Ok lines => Ok (line :: lines)
          | Raise e => Raise e
          end
      | Raise e => Raise e
      end
  end.

Definition format_commits (commits_data : CommitsJson)
  : outcome (list str) :=
  match commits_data with
  | CommitArray commits => format_all commits
  | JsonObject [] => Ok []
  | JsonObject (_ :: _) => Raise TypeError
  end.

(** Lines 72-82 on the answer to the request: the formatted lines, or
    the exception of the request or of the comprehension. *)
Definition formatted_commits (answer : outcome CommitsJson)
  : outcome (list str) :=
  match answer with
  | Ok commits_data => format_commits commits_data
  | Raise e => Raise e
  end.

(** Lines 84-96: the value of the Commits field from the formatted
    lines. *)
Definition commits_value (formatted : list str) : outcome str :=
  let result := join nl formatted in
  if 1024 <? length result then
    let diff := (Z.of_nat (length result) - 1024 + 4)%Z in
    match while_diff formatted diff with
    | Ok (formatted, _) =>
        let formatted :=
          insert_at (length formatted / 2 + 1) (lit "...") formatted in
        Ok (join nl formatted)
    | Raise e => Raise e
    end
  else Ok result.

(** The user-visible notice of a failed request (lines 43 and 138). *)
Definition error_notice (status : N) : str :=
  lit "Erreur lors de la requ" ++ [234%N] ++ lit "te ("
  ++ str_of_int status ++ lit ")".

(** The wastebasket emoji, U+1F5D1 U+FE0F. *)
Definition trash : str := [128465; 65039]%N.

(** Lines 25-36: the issue number and the repository of one match. *)
Definition issue_of (i0 : str) : str :=
  let issue := strip (lit "#e ") i0 in
  let issue := strip (lit "#u ") issue in
  strip (lit "#l ") issue.

Definition repo_of (i0 : str) : str :=
  if contains (ch "e") i0 then lit "numworks/epsilon"
  else if contains (ch "u") i0 then lit "UpsilonNumworks/Upsilon"
  else if contains (ch "l") i0 then lit "Lambda-Numworks/Lambda"
  else lit "omega-numworks/omega".

Definition issue_url (repo issue : str) : str :=
  lit "https://api.github.com/repos/" ++ repo ++ lit "/issues/" ++ issue.

(** ** The cog *)

Section Cog.

Variable env : Env.

(** [session.get(url)] on each of the three endpoints. *)
Definition get_issue (url : str) : M (Response IssueData) :=
  record (GetIssue url) ;;; h <- history ;; ret (issue_response env h).

Definition get_commits (url : str) : M CommitsJson :=
  record (GetCommits url) ;;; h <- history ;; lift (commits_response env h).

Definition get_color (url : str) : M (Response ColorData) :=
  record (GetColor url) ;;; h <- history ;; ret (color_response env h).

(** An awaited call on the chat platform. *)
Definition perform (a : Action) : M Z :=
  record a ;;; h <- history ;; lift (platform env h).

Definition fetch_user (uid : Z) : M bool :=
  perform (FetchUser uid) ;;; h <- history ;; ret (user_is_bot env h).

(** [self.issue_embeds[k] = v], [.pop(k)] and [.pop(k, None)]. *)
Definition dict_set (k v : Z) : M unit :=
  fun w => (Ok tt, {| issue_embeds := <[k := v]> (issue_embeds w);
                      log := log w |}).

Definition dict_pop (k : Z) : M Z :=
  fun w =>
    match issue_embeds w !! k with
    | Some v => (Ok v, {| issue_embeds := delete k (issue_embeds w);
                          log := log w |})
    | None => (Raise KeyError, w)
    end.

Definition dict_pop_default (k : Z) : M (option Z) :=
  fun w =>
    match issue_embeds w !! k with
    | Some v => (Ok (Some v), {| issue_embeds := delete k (issue_embeds w);
                                 log := log w |})
    | None => (Ok None, w)
    end.

(** Lines 104-110: the line of a closed issue. *)
Definition closed_line (data : IssueData) : outcome str :=
  match closed_at data with
  | None => Raise TypeError
  | Some stamp =>
      match closed_at_display env stamp with
      | None => Raise ValueError
      | Some closed_at =>
          match closed_by data with
          | None => Raise TypeError
          | Some closer =>
              Ok (lit ":x: Closed by " ++ login closer ++ lit " on "
                  ++ closed_at)
          end
      end
  end.

(** Lines 49-121.  The embed is built with the body as it is, [null]
    included; [len] of line 56 and the slice of line 57 read it back. *)
Definition make_embed (data : IssueData) : M Embed :=
  let embed :=
    {| embed_title := title data; embed_url := Some (html_url data);
       description := body data; author := None; fields := [];
       color := None |} in
  size <- lift (len (description embed)) ;;
  embed <-
    (if 2048 <? size then
       kept <- lift (slice_to 2043 (description embed)) ;;
       ret (set_description (kept ++ lit "[...]") embed)
     else ret embed) ;;
  let author := user data in
  let embed :=
    set_author {| author_name := login author;
                  author_url := user_html_url author;
                  author_icon_url := avatar_url author |} embed in
  let additional_infos : list str := [] in
  let additional_infos :=
    if locked data then additional_infos ++ [lit ":lock: locked"]
    else additional_infos in
  st <- match pull_request data with
        | Some pull_request =>
            let additional_infos :=
              additional_infos ++ [lit ":arrows_clockwise: Pull request"] in
            commits_data <- get_commits (pr_url pull_request ++ lit "/commits") ;;
            formatted <- lift (format_commits commits_data) ;;
            result <- lift (commits_value formatted) ;;
            ret (additional_infos, add_field (lit "Commits") result embed)
        | None => ret (additional_infos, embed)
        end ;;
  let additional_infos : list str := fst st in
  let embed : Embed := snd st in
  let additional_infos :=
    if negb (comments data =? 0)%N
    then additional_infos
         ++ [lit ":speech_balloon: Comments : " ++ str_of_int (comments data)]
    else additional_infos in
  additional_infos <-
    (if bool_decide (state data = lit "closed") then
       line <- lift (closed_line data) ;;
       ret (additional_infos ++ [line])
     else if bool_decide (state data = lit "open") then
       ret (additional_infos ++ [lit ":white_check_mark: Open"])
     else ret additional_infos) ;;
  let additional_infos :=
    match labels data with
    | [] => additional_infos
    | _ :: _ =>
        let labels := join (lit "` `") (map label_name (labels data)) in
        additional_infos ++ [lit ":label: Labels: `" ++ labels ++ lit "`"]
    end in
  ret (add_field (lit "Additional informations")
         (join nl additional_infos) embed).

Definition make_color_embed (hex_code : str) : M (option Embed) :=
  response <- get_color (lit "https://www.thecolorapi.com/id?hex=" ++ hex_code) ;;
  if (status response =? 200)%N then
    let data := json response in
    let title := name_value data ++ lit " color" in
    let description := lit "**Hex:** #" ++ hex_code ++ nl in
    let description :=
      description
      ++ join nl
           (map (fun color_format =>
                   lit "**" ++ capitalize color_format ++ lit ":**"
                   ++ join (lit ", ")
                        (map (component data color_format) color_format))
                [lit "rgb"; lit "hsl"; lit "hsv"]) in
    c <- lift (int16 hex_code) ;;
    ret (Some {| embed_title := title; embed_url := None;
                 description := Some description; author := None;
                 fields := []; color := Some c |})
  else
    perform (Send (Some (error_notice (status response))) None) ;;;
    ret None.

(** Lines 196-210. *)
Definition on_raw_reaction_add (reaction : RawReaction) : M unit :=
  reaction_user_bot <- fetch_user (user_id reaction) ;;
  if reaction_user_bot : bool then ret tt
  else if bool_decide (emoji_name reaction = trash) then
    popped <- dict_pop_default (message_id reaction) ;;
    if truthy popped then
      perform (FetchMessage (channel_id reaction) (message_id reaction)) ;;;
      perform (DeleteMessage (message_id reaction)) ;;;
      ret tt
    else ret tt
  else ret tt.

(** [await asyncio.sleep(seconds)]: while this handler is suspended the
    reaction events the environment delivers are handled, one after
    the other; an exception in one of them stays in that handler.  The
    sleep is the one suspension of on_message during which an entry of
    its own is in the registry. *)
Definition deliver (reactions : list RawReaction) : M unit :=
  fun w =>
    (Ok tt, fold_left (fun w r => snd (on_raw_reaction_add r w)) reactions w).

Definition sleep (seconds : N) : M unit :=
  record (Sleep seconds) ;;; h <- history ;; deliver (asleep env h).

(** Line 188 and lines 192-193: the two ends of the life of an entry
    of [issue_embeds] on the side of on_message. *)
Definition register (id : Z) : M unit := dict_set id 1.

Definition cleanup (id : Z) : M unit :=
  perform (RemoveReaction id trash) ;;;
  dict_pop id ;;;
  ret tt.

(** Lines 24-46: the loop of the generator.  Each [yield] hands the
    issue to [consumer], the body of the [async for] that drives the
    generator; [return] ends the loop. *)
Fixpoint for_matches (matches : list str)
    (consumer : IssueData -> M unit) : M unit :=
  match matches with
  | [] => ret tt
  | i0 :: matches =>
      let issue := issue_of i0 in
      let repo := repo_of i0 in
      response <- get_issue (issue_url repo issue) ;;
      if negb (status response =? 200)%N then
        perform (Send (Some (error_notice (status response))) None) ;;;
        ret tt
      else
        consumer (json response) ;;;
        for_matches matches consumer
  end.

Definition get_github_issues (message : Message)
    (consumer : IssueData -> M unit) : M unit :=
  let matches := findall_lookahead issue_lookahead (content message) in
  for_matches matches consumer.

(** Lines 181-193: the body of the [async for]. *)
Definition show_issue (i : IssueData) : M unit :=
  embed <- make_embed i ;;
  issue_embed <- perform (Send None (Some embed)) ;;
  perform (AddReaction issue_embed trash) ;;;
  register issue_embed ;;;
  sleep 60 ;;;
  cleanup issue_embed.

(** Lines 171-193. *)
Definition on_message_body (message : Message) : M unit :=
  (if re_match color_pattern (content message) then
     let hex_code := lstrip (lit "#") (content message) in
     color_embed <- make_color_embed hex_code ;;
     perform (Send None color_embed) ;;;
     ret tt
   else ret tt) ;;;
  if re_search issue_pattern (content message) then
    get_github_issues message show_issue
  else ret tt.

(** Modelled from the spec: the decorator [user_only] of src/utils,
    which is not among the sources; the handler runs only for a message
    "authored by a qualifying non-bot source". *)
Definition user_only (handler : Message -> M unit) (message : Message)
  : M unit :=
  if human_authored message then handler message else ret tt.

Definition on_message : Message -> M unit := user_only on_message_body.

End Cog.

(** ** The truncation of the Commits field, as the specification words it

    "Compute excess = length(result) - 1024 + 4; repeatedly remove the
    commit line at index floor(count/2) and subtract
    length(removedLine) + 1 from excess until excess <= 0; then insert a
    literal "..." line at index floor(remainingCount/2) + 1; rejoin with
    newlines." *)

Inductive removes_middle : list str -> Z -> list str -> Prop :=
| removes_done lines excess :
    (excess <= 0)%Z ->
    removes_middle lines excess lines
| removes_step lines excess before removed after out :
    (0 < excess)%Z ->
    lines = before ++ removed :: after ->
    length before = length lines / 2 ->
    removes_middle (before ++ after)
      (excess - (Z.of_nat (length removed) + 1))%Z out ->
    removes_middle lines excess out.

(** [x] stands at index [i] of [out], the other lines being those of
    [lines] in their order; an index past the end of [lines] puts [x]
    last. *)
Definition inserted_at (i : nat) (x : str) (lines out : list str) : Prop :=
  exists before after,
    lines = before ++ after /\ out = before ++ x :: after /\
    (length before = i \/ (length lines < i /\ after = [])).

Definition reference_commits (lines : list str) (v : str) : Prop :=
  exists remaining out,
    removes_middle lines
      (Z.of_nat (length (join nl lines)) - 1024 + 4)%Z remaining /\
    inserted_at (length remaining / 2 + 1) (lit "...") remaining out /\
    v = join nl out.

(** The sum over the lines of their length plus one: what the loop can
    subtract from [diff] in all. *)
Definition weight (lines : list str) : Z :=
  fold_right (fun line acc => (Z.of_nat (length line) + 1 + acc)%Z) 0%Z lines.

(** The world [w] after the actions [l] were performed. *)
Definition logged (w : World) (l : list Action) : World :=
  {| issue_embeds := issue_embeds w; log := log w ++ l |}.

(** ** Concrete inputs

    The cog as it starts, an environment in which every request
    succeeds and no reaction arrives, and a few tracker records. *)

Definition start : World := {| issue_embeds := ∅; log := [] |}.

Definition octocat : User :=
  {| login := lit "octocat";
     user_html_url := lit "https://github.com/octocat";
     avatar_url := lit "https://github.com/octocat.png" |}.

Definition open_issue : IssueData :=
  {| title := lit "Crash on start";
     html_url := lit "https://github.com/omega-numworks/omega/issues/1";
     body := Some (lit "It crashes.");
     user := octocat;
     locked := false;
     pull_request := None;
     comments := 0;
     state := lit "open";
     closed_at := None;
     closed_by := None;
     labels := [] |}.

(** An open issue with one label whose name has 1100 characters. *)
Definition long_label_issue : IssueData :=
  {| title := title open_issue; html_url := html_url open_issue;
     body := body open_issue; user := octocat; locked := false;
     pull_request := None; comments := 0; state := lit "open";
     closed_at := None; closed_by := None;
     labels := [{| label_name := repeat (ch "x") 1100 |}] |}.

(** An open issue without text: the tracker sends [null] as its body. *)
Definition null_body_issue : IssueData :=
  {| title := title open_issue; html_url := html_url open_issue;
     body := None; user := octocat; locked := false;
     pull_request := None; comments := 0; state := lit "open";
     closed_at := None; closed_by := None; labels := [] |}.

(** An open pull request. *)
Definition open_pull : IssueData :=
  {| title := lit "Fix the crash";
     html_url := lit "https://github.com/omega-numworks/omega/pull/2";
     body := Some (lit "Fixes #1.");
     user := octocat; locked := false;
     pull_request :=
       Some {| pr_url :=
                 lit "https://api.github.com/repos/omega-numworks/omega/pulls/2" |};
     comments := 3; state := lit "open";
     closed_at := None; closed_by := None; labels := [] |}.

(** A commit whose message has [n] characters. *)
Definition commit_of_size (n : nat) : Commit :=
  {| sha := lit "0123456789abcdef";
     commit_html_url := lit "https://github.com/c";
     commit_message := repeat (ch "m") n;
     committer_login := Some (lit "octocat") |}.

Definition no_color : ColorData :=
  {| name_value := lit "Black"; component := fun _ letter => [letter] |}.

(** Every request answered with [issue_status], resp. [color_status];
    a pull request has the commits [commits]; the platform accepts every
    action and numbers the messages by the length of the history. *)
Definition simple_env (issue_status color_status : N) (issue : IssueData)
    (commits : list Commit) : Env :=
  {| issue_response := fun _ => {| status := issue_status; json := issue |};
     commits_response := fun _ => Ok (CommitArray commits);
     color_response := fun _ => {| status := color_status; json := no_color |};
     platform := fun h => Ok (Z.of_nat (length h));
     user_is_bot := fun _ => false;
     asleep := fun _ => [];
     closed_at_display := fun _ => Some (lit "Jan. 01 00:00 2021") |}.

(** Twelve commits with messages of 100 characters: 1691 characters
    once formatted and joined. *)
Definition twelve_commits : list Commit := repeat (commit_of_size 100) 12.

(** As [simple_env] on [open_pull], with [answer] as the outcome of the
    request for the commits. *)
Definition commits_env (answer : outcome CommitsJson) : Env :=
  {| issue_response := fun _ => {| status := 200; json := open_pull |};
     commits_response := fun _ => answer;
     color_response := fun _ => {| status := 200; json := no_color |};
     platform := fun h => Ok (Z.of_nat (length h));
     user_is_bot := fun _ => false;
     asleep := fun _ => [];
     closed_at_display := fun _ => Some (lit "Jan. 01 00:00 2021") |}.

(** A commit of an author the tracker knows no account for. *)
Definition unknown_committer : Commit :=
  {| sha := lit "0123456789abcdef";
     commit_html_url := lit "https://github.com/c";
     commit_message := lit "Fix";
     committer_login := None |}.

(** The object of an answer that is no success. *)
Definition not_found : CommitsJson :=
  JsonObject [lit "message"; lit "documentation_url"].

Definition twelve_lines : list str :=
  repeat (commit_line (commit_of_size 100) (lit "octocat")) 12.

(** Ten lines, 1100 characters once joined: the fifth is one character
    longer than the others. *)
Definition ten_lines : list str :=
  map (fun n => repeat (ch "a") n)
      [109; 109; 109; 109; 110; 109; 109; 109; 109; 109].

(** ** Issue references, as the specification words them

    "A [#] character immediately followed by one or more decimal digits,
    optionally followed by one of the letters e, u, or l, where the
    whole token is bounded by start-of-string/whitespace on the left and
    end-of-string/whitespace on the right"; the letter selects the
    repository (section 4.2).  What counts as white space is a parameter
    ([space]), and so is what counts as the end of the text ([ends]). *)

Inductive selector := sel_default | sel_e | sel_u | sel_l.

Definition repository (r : selector) : str :=
  match r with
  | sel_default => lit "omega-numworks/omega"
  | sel_e => lit "numworks/epsilon"
  | sel_u => lit "UpsilonNumworks/Upsilon"
  | sel_l => lit "Lambda-Numworks/Lambda"
  end.

Definition letter_selector (c : char) : option selector :=
  if (c =? ch "e")%N then Some sel_e
  else if (c =? ch "u")%N then Some sel_u
  else if (c =? ch "l")%N then Some sel_l
  else None.

(** The decimal digits [s] starts with, and what follows them. *)
Fixpoint leading_digits (s : str) : str * str :=
  match s with
  | c :: t =>
      if digit c then
        let (ds, r) := leading_digits t in (c :: ds, r)
      else ([], s)
  | [] => ([], [])
  end.

Definition is_nil (s : str) : bool :=
  match s with [] => true | _ :: _ => false end.

(** The space character, and white space at large (the ASCII part of
    what Python calls white space). *)
Definition is_blank (c : char) : bool := (c =? ch " ")%N.

Definition is_whitespace (c : char) : bool :=
  is_blank c || ((9 <=? c)%N && (c <=? 13)%N).

Definition space_next (space : char -> bool) (s : str) : bool :=
  match s with c :: _ => space c | [] => false end.

(** The reference that starts at a [#], from what follows the [#];
    [space] says what bounds a token and [ends] where the text ends. *)
Definition token (space : char -> bool) (ends : str -> bool) (s : str)
  : option (str * selector) :=
  let (ds, r) := leading_digits s in
  match ds with
  | [] => None
  | _ :: _ =>
      if ends r || space_next space r then Some (ds, sel_default)
      else
        match r with
        | c :: r' =>
            match letter_selector c with
            | Some sel =>
                if ends r' || space_next space r' then Some (ds, sel)
                else None
            | None => None
            end
        | [] => None
        end
  end.

(** The references of a text, left to right; [bounded] says whether
    what precedes is the start of the text or a space. *)
Fixpoint tokens_from (space : char -> bool) (ends : str -> bool)
    (bounded : bool) (s : str) : list (str * selector) :=
  match s with
  | [] => []
  | c :: t =>
      (if (c =? ch "#")%N && bounded
       then match token space ends t with Some r => [r] | None => [] end
       else [])
      ++ tokens_from space ends (space c) t
  end.

Definition references (space : char -> bool) (ends : str -> bool) (s : str)
  : list (str * selector) :=
  tokens_from space ends true s.

(** What get_github_issues looks up for a message, in order: the
    number and the repository of each match (lines 21-36). *)
Definition extracted (text : str) : list (str * str) :=
  map (fun i0 => (issue_of i0, repo_of i0))
      (findall_lookahead issue_lookahead text).

(** The reference whose [#] stands at position [q] of the text [s],
    if there is one: the [#] is the first character of [s] or follows a
    space, and a token follows it. *)
Definition token_at (s : str) (q : nat) : option (str * selector) :=
  match s !! q with
  | Some c =>
      if (c =? ch "#")%N
         && (Nat.eqb q 0
             || bool_decide (s !! (q - 1) = Some (ch " ")))
      then token is_blank is_nil (drop (S q) s)
      else None
  | None => None
  end.

(** Whether a [#] after [pre] is bounded on its left. *)
Definition bounded_by (pre : str) : bool :=
  match last pre with
  | None => true
  | Some c => is_blank c
  end.

(** ** The life of an entry of issue_embeds

    The steps that touch the registry, each of them run without
    suspension between its test and its update of the dictionary:
    on_message registers the embed it sent (line 188) and cleans up
    after the 60 seconds (lines 192-193); on_raw_reaction_add handles a
    reaction.  Handlers interleave at these steps only, and an exception
    ends the handler it is raised in and no other. *)

Inductive Event :=
| Registered (id : Z)
| TimedOut (id : Z)
| Reacted (reaction : RawReaction).

Definition handle (env : Env) (ev : Event) : M unit :=
  match ev with
  | Registered id => register id
  | TimedOut id => cleanup env id
  | Reacted reaction => on_raw_reaction_add env reaction
  end.

Definition run (env : Env) (evs : list Event) (w : World) : World :=
  fold_left (fun w ev => (handle env ev w).2) evs w.

(** How often the message [id] was deleted, and how often registered. *)
Fixpoint deletions (id : Z) (l : list Action) : nat :=
  match l with
  | [] => 0
  | DeleteMessage m :: t =>
      (if bool_decide (m = id) then 1 else 0) + deletions id t
  | _ :: t => deletions id t
  end.

Fixpoint registrations (id : Z) (evs : list Event) : nat :=
  match evs with
  | [] => 0
  | Registered m :: t =>
      (if bool_decide (m = id) then 1 else 0) + registrations id t
  | _ :: t => registrations id t
  end.

(** 1 when [id] has an entry in the registry. *)
Definition live (w : World) (id : Z) : nat :=
  match issue_embeds w !! id with Some _ => 1 | None => 0 end.

(** Every action but a lookup of an issue. *)
Definition no_lookup (a : Action) : bool :=
  match a with GetIssue _ => false | _ => true end.

(** "The entire message content matches exactly [#] followed by 6 hex
    digits", as the specification words the colour token. *)
Definition is_color_code (s : str) : Prop :=
  exists h, s = ch "#" :: h /\ length h = 6 /\ forallb hex_digit h = true.

(** A reaction with the wastebasket by user 1 on message [id]. *)
Definition dismissal (id : Z) : RawReaction :=
  {| user_id := 1; emoji_name := trash; message_id := id; channel_id := 1 |}.

(** As [simple_env], with a dismissal of message 2 while the handler
    sleeps: 2 is the id the platform of [simple_env] gives the embed of
    the first reference of a message. *)
Definition dismissing_env (issue : IssueData) : Env :=
  {| issue_response := fun _ => {| status := 200; json := issue |};
     commits_response := fun _ => Ok (CommitArray []);
     color_response := fun _ => {| status := 200; json := no_color |};
     platform := fun h => Ok (Z.of_nat (length h));
     user_is_bot := fun _ => false;
     asleep := fun _ => [dismissal 2];
     closed_at_display := fun _ => Some (lit "Jan. 01 00:00 2021") |}.

(** As [simple_env], but only the first lookup of an issue succeeds. *)
Definition second_fails_env (issue : IssueData) : Env :=
  {| issue_response :=
       fun h => {| status := if length h <=? 1 then 200%N else 404%N;
                   json := issue |};
     commits_response := fun _ => Ok (CommitArray []);
     color_response := fun _ => {| status := 200; json := no_color |};
     platform := fun h => Ok (Z.of_nat (length h));
     user_is_bot := fun _ => false;
     asleep := fun _ => [];
     closed_at_display := fun _ => Some (lit "Jan. 01 00:00 2021") |}.

Definition human (text : str) : Message :=
  {| content := text; human_authored := true |}.

(** ** Properties of runs *)

(** A handler that looks up no issue: what it adds to the history has
    no [GetIssue]. *)
Definition quiet {A} (m : M A) : Prop :=
  forall w, exists l, log (m w).2 = log w ++ l /\ forallb no_lookup l = true.

(** In the actions [l] performed from the history [h] on, a lookup
    answered with a status other than 200 is followed by the notice of
    that status and by nothing else. *)
Definition stops_at_failure (env : Env) (h l : list Action) : Prop :=
  forall l1 u l2,
    l = l1 ++ GetIssue u :: l2 ->
    let failed := status (issue_response env (h ++ l1 ++ [GetIssue u])) in
    failed <> 200%N ->
    l2 = [Send (Some (error_notice failed)) None].

(** Every entry of the registry holds the 1 on_message stores. *)
Definition all_ones (w : World) : Prop :=
  forall id v, issue_embeds w !! id = Some v -> v = 1%Z.

(** ** The patterns in pieces

    The parts of [issue_lookahead], and the text each match of it
    covers, for the proofs below. *)

(** What a match must give back: where it ends. *)
Definition K : nat -> str -> option nat := fun j _ => Some j.

(** [($| )]. *)
Definition right_end : regex := Alt Eol (Chr (ch " ")).

(** [([eul])?($| )]: what follows the digits. *)
Definition after_digits : regex := Cat (Opt (Cls eul)) right_end.

(** [[0-9]+([eul])?($| )]: what follows the [#]. *)
Definition after_hash : regex := Cat (Plus digit) after_digits.

Definition letter_text (sel : selector) : str :=
  match sel with
  | sel_default => []
  | sel_e => lit "e"
  | sel_u => lit "u"
  | sel_l => lit "l"
  end.

(** The space a match ends with, unless the subject ends there. *)
Definition trailing (r : str) : str :=
  if at_eol r then [] else lit " ".

(** The text a match covers after its [#]: the digits and the letter of
    the reference, and the space behind them. *)
Definition token_text (s : str) : option str :=
  let (ds, r) := leading_digits s in
  match token is_blank at_eol s with
  | Some (_, sel) =>
      Some (ds ++ letter_text sel
            ++ trailing (drop (length (letter_text sel)) r))
  | None => None
  end.

(** The text matched at position [i], [s] being the subject from [i]
    on: [#] at the start of the subject, or a space and [#] anywhere. *)
Definition here_text (i : nat) (s : str) : option str :=
  match s with
  | c :: t =>
      if (c =? ch "#")%N then
        if Nat.eqb i 0 then option_map (cons c) (token_text t) else None
      else if (c =? ch " ")%N then
        match t with
        | c' :: t' =>
            if (c' =? ch "#")%N
            then option_map (fun x => c :: c' :: x) (token_text t')
            else None
        | [] => None
        end
      else None
  | [] => None
  end.

Definition ref_of_text (i0 : str) : str * str := (issue_of i0, repo_of i0).

Definition spec_ref (r : str * selector) : str * str :=
  (r.1, repository r.2).

Definition option_list {A} (o : option A) : list A :=
  match o with Some a => [a] | None => [] end.

(** ** Where make_embed raises

    [len] of a [null] body (line 56); the request for the commits of a
    pull request and the comprehension over its answer (lines 72-82);
    the line of a closed issue (lines 104-110). *)
Definition make_embed_raises (env : Env) (data : IssueData) (w : World)
    (ex : exn) : Prop :=
  (body data = None /\ ex = TypeError) \/
  (exists pr,
      pull_request data = Some pr /\
      formatted_commits
        (commits_response env
           (log w ++ [GetCommits (pr_url pr ++ lit "/commits")]))
      = Raise ex) \/
  (state data = lit "closed" /\ closed_line env data = Raise ex).

(** ** What a run leaves behind *)

(** The urls of the issue lookups among the actions [l], in order. *)
Fixpoint lookups (l : list Action) : list str :=
  match l with
  | [] => []
  | GetIssue url :: t => url :: lookups t
  | _ :: t => lookups t
  end.

(** The seconds spent in [asyncio.sleep] among the actions [l]. *)
Fixpoint slept (l : list Action) : N :=
  match l with
  | [] => 0
  | Sleep seconds :: t => seconds + slept t
  | _ :: t => slept t
  end.

Definition no_sleep (a : Action) : bool :=
  match a with Sleep _ => false | _ => true end.

(** A handler every run of which takes a world [w] to a world related
    to [w] by [R]. *)
Definition respects (R : World -> World -> Prop) {A} (m : M A) : Prop :=
  forall w, R w (m w).2.

(** The relations used below: the seconds slept so far and the registry
    stay as they are, or the registry gets no new entry, or there is
    neither a lookup, nor a sleep, nor a change of the registry. *)
Definition same_lookups (w w' : World) : Prop :=
  lookups (log w') = lookups (log w).

Definition same_slept (w w' : World) : Prop :=
  slept (log w') = slept (log w).

Definition same_registry (w w' : World) : Prop :=
  issue_embeds w' = issue_embeds w.

Definition no_new_entry (w w' : World) : Prop :=
  dom (issue_embeds w') ⊆ dom (issue_embeds w).

Definition untouched (w w' : World) : Prop :=
  lookups (log w') = lookups (log w) /\
  slept (log w') = slept (log w) /\
  issue_embeds w' = issue_embeds w.

Definition side_action (a : Action) : bool :=
  match a with GetIssue _ | Sleep _ => false | _ => true end.

(** The url looked up for one match of the pattern (lines 25-38). *)
Definition match_url (i0 : str) : str := issue_url (repo_of i0) (issue_of i0).

(** The urls [get_github_issues] asks for when no lookup fails. *)
Definition issue_urls (text : str) : list str :=
  map (fun reference => issue_url reference.2 reference.1) (extracted text).

(** What the loop of [get_github_issues] needs of the body of the
    [async for]: no lookup of its own; a minute of sleep when it ends
    normally; no entry left in the registry when it ends normally, and
    one at most when it raises. *)
Definition tidy_consumer (consumer : IssueData -> M unit) : Prop :=
  forall i w,
    let r := (consumer i w).1 in
    let w' := (consumer i w).2 in
    lookups (log w') = lookups (log w) /\
    (r = Ok tt -> slept (log w') = (slept (log w) + 60)%N) /\
    (r = Ok tt -> dom (issue_embeds w') ⊆ dom (issue_embeds w)) /\
    exists id, dom (issue_embeds w') ⊆ dom (issue_embeds w) ∪ {[id]}.

(** ** More concrete inputs *)

(** Ten lines of 120 characters, 1209 characters once joined. *)
Definition ten_wide_lines : list str :=
  map (fun i => repeat (97 + N.of_nat i)%N 120) (seq 0 10).

(** The registry with the one entry [id]. *)
Definition registered (id : Z) : World :=
  {| issue_embeds := {[id := 1%Z]}; log := [] |}.

(** A reaction with the thumb by user 1 on message [id]. *)
Definition thumbs_up (id : Z) : RawReaction :=
  {| user_id := 1; emoji_name := [128077%N]; message_id := id;
     channel_id := 1 |}.

(** ** The moderation cog (src/cogs/moderation.py) *)

(** [pattern.fullmatch(s)], as a truth value, for the patterns of
    [Re]: the whole of [s] has to be matched. *)
Definition re_fullmatch (r : regex) (s : str) : bool :=
  bool_decide
    (is_Some (exec r 0 s (fun j t => if is_nil t then Some j else None))).

(** What on_message of the moderation cog reads of a message:
    [message.content], [message.channel.id], the message [delete] is
    called on, and what [user_only] looks at. *)
Record Posted := {
  posted_content : str;
  posted_channel_id : N;
  posted_id : Z;
  posted_by_human : bool }.

Section Moderation.

Variable env : Env.

(** A compiled pattern; [re.compile], which raises on a text that is
    no regular expression ([None]); and [pattern.fullmatch].  The
    patterns come from the configuration, so nothing is assumed of
    them. *)
Variable Pattern : Type.
Variable compile : str -> option Pattern.
Variable fullmatch : Pattern -> str -> bool.

(** Lines 16-19: the dictionary comprehension of [__init__], over the
    items of [config["REGEX_CHANNELS"]] in their order. *)
Fixpoint compile_items (items : list (str * str)) (acc : gmap str Pattern)
  : option (gmap str Pattern) :=
  match items with
  | [] => Some acc
  | (chan_id, pattern) :: rest =>
      match compile pattern with
      | Some compiled => compile_items rest (<[chan_id := compiled]> acc)
      | None => None
      end
  end.

Definition moderation_init (items : list (str * str))
  : option (gmap str Pattern) :=
  compile_items items ∅.

(** Lines 25-27.  A compiled pattern is a true value, so the first test
    is whether the channel has an entry. *)
Definition moderation_body (regex_patterns : gmap str Pattern)
    (message : Posted) : M unit :=
  match regex_patterns !! str_of_int (posted_channel_id message) with
  | Some pattern =>
      if negb (fullmatch pattern (posted_content message))
      then perform env (DeleteMessage (posted_id message)) ;;; ret tt
      else ret tt
  | None => ret tt
  end.

(** Under [user_only], as the handler of the omega cog. *)
Definition moderation_on_message (regex_patterns : gmap str Pattern)
    (message : Posted) : M unit :=
  if posted_by_human message then moderation_body regex_patterns message
  else ret tt.

End Moderation.

(** Channel 7 takes decimal numbers only. *)
Definition numbers_only : gmap str regex :=
  {[ lit "7" := Plus digit ]}.

(** A message of a user, with the id 5. *)
Definition posted (text : str) (chan : N) : Posted :=
  {| posted_content := text; posted_channel_id := chan; posted_id := 5;
     posted_by_human := true |}.

(** [re.compile] on the one pattern ["[0-9]+"]. *)
Definition compile_numbers (pattern : str) : option regex :=
  if bool_decide (pattern = lit "[0-9]+") then Some (Plus digit) else None.

(** * Theorems *)

(** ** Strings and lists *)

Lemma weight_app l1 l2 : weight (l1 ++ l2) = (weight l1 + weight l2)%Z.
Proof. induction l1 as [|x l1 IH]; simpl; [|rewrite IH]; lia. Qed.

Lemma weight_nonneg l : (0 <= weight l)%Z.
Proof. induction l; simpl; lia. Qed.

Lemma join_nl_length l :
  l <> [] -> Z.of_nat (length (join nl l)) = (weight l - 1)%Z.
Proof.
  induction l as [|x t IH]; [done|]. intros _.
  destruct t as [|y t'].
  - simpl. lia.
  - change (join nl (x :: y :: t')) with (x ++ nl ++ join nl (y :: t')).
    rewrite !length_app. change (length nl) with 1.
    change (weight (x :: y :: t'))
      with (Z.of_nat (length x) + 1 + weight (y :: t'))%Z.
    specialize (IH ltac:(discriminate)). lia.
Qed.

Lemma join_nl_nil_length : length (join nl []) = 0.
Proof. reflexivity. Qed.

Lemma pop_split {A} (i : nat) (l : list A) x rest :
  pop i l = Some (x, rest) <->
  exists before after,
    l = before ++ x :: after /\ length before = i /\ rest = before ++ after.
Proof.
  unfold pop. split.
  - destruct (l !! i) as [y|] eqn:E; [|discriminate].
    intros [= -> <-].
    exists (take i l), (drop (S i) l). repeat split.
    + rewrite <- (take_drop_middle l i x E) at 1. reflexivity.
    + rewrite length_take. apply lookup_lt_Some in E. lia.
    + rewrite delete_take_drop. reflexivity.
  - intros (before & after & -> & <- & ->).
    rewrite list_lookup_middle by reflexivity.
    rewrite delete_middle. reflexivity.
Qed.

Lemma pop_middle_is_Some {A} (l : list A) :
  l <> [] -> is_Some (pop (length l / 2) l).
Proof.
  intros Hl. unfold pop.
  assert (Hlt : length l / 2 < length l).
  { destruct l; [done|]. apply Nat.div_lt; simpl; lia. }
  destruct (lookup_lt_is_Some_2 l _ Hlt) as [x ->]. eauto.
Qed.

(** ** The truncation loop *)

Lemma loop_body_nil diff : loop_body [] diff = Raise IndexError.
Proof. reflexivity. Qed.

Lemma loop_body_cons formatted diff :
  formatted <> [] ->
  exists before line after,
    formatted = before ++ line :: after /\
    length before = length formatted / 2 /\
    loop_body formatted diff
    = Ok (before ++ after, (diff - (Z.of_nat (length line) + 1))%Z).
Proof.
  intros Hne. destruct (pop_middle_is_Some formatted Hne) as [[line rest] E].
  pose proof E as E'. apply pop_split in E' as (before & after & ? & ? & ->).
  exists before, line, after. repeat split; [done..|].
  unfold loop_body. rewrite E. reflexivity.
Qed.

Lemma while_diff_eq formatted diff :
  while_diff formatted diff =
  if (0 <? diff)%Z then
    match loop_body formatted diff with
    | Ok (rest, diff') => while_diff rest diff'
    | Raise e => Raise e
    end
  else Ok (formatted, diff).
Proof.
  funelim (while_diff formatted diff); rewrite Heq; [reflexivity|..];
    match goal with E : loop_body _ _ = _ |- _ => rewrite E end; reflexivity.
Qed.

(** The loop keeps [diff - weight formatted] unchanged; started with
    [diff <= weight formatted] it cannot meet an empty list. *)
Lemma while_diff_ok formatted diff :
  (diff <= weight formatted)%Z ->
  exists rest diff',
    while_diff formatted diff = Ok (rest, diff') /\
    (diff' <= 0)%Z /\
    (diff' - weight rest = diff - weight formatted)%Z /\
    length rest <= length formatted /\
    removes_middle formatted diff rest.
Proof.
  remember (length formatted) as n eqn:Hn.
  revert formatted diff Hn.
  induction (lt_wf n) as [n _ IH]. intros formatted diff -> Hle.
  rewrite while_diff_eq.
  destruct (0 <? diff)%Z eqn:Hpos.
  - apply Z.ltb_lt in Hpos.
    assert (Hne : formatted <> []).
    { intros ->. simpl in Hle. lia. }
    destruct (loop_body_cons formatted diff Hne)
      as (before & line & after & Hsplit & Hmid & ->).
    assert (Hw : weight formatted
                 = (weight (before ++ after) + (Z.of_nat (length line) + 1))%Z).
    { rewrite Hsplit, !weight_app. simpl. lia. }
    assert (Hlen : length (before ++ after) < length formatted).
    { rewrite Hsplit, !length_app. simpl. lia. }
    destruct (IH _ Hlen (before ++ after)
                (diff - (Z.of_nat (length line) + 1))%Z eq_refl)
      as (rest & diff' & Hrun & Hd & Hinv & Hl & Hrel); [lia|].
    exists rest, diff'. split_and!; [done|done|lia|lia|].
    eapply removes_step; eauto.
  - apply Z.ltb_ge in Hpos.
    exists formatted, diff. split_and!; [done|lia|lia|lia|].
    by apply removes_done.
Qed.

Lemma removes_middle_det lines excess out1 out2 :
  removes_middle lines excess out1 ->
  removes_middle lines excess out2 ->
  out1 = out2.
Proof.
  intros H1. revert out2.
  induction H1 as [lines excess Hle
                  |lines excess before removed after out Hpos Hsplit Hmid _ IH];
    intros out2 H2.
  - inversion H2; subst; [done|lia].
  - inversion H2 as [|? ? before' removed' after' ? _ Hsplit' Hmid' Hrest];
      subst; [lia|].
    assert (Hb : before = before').
    { apply (f_equal (take (length before))) in Hsplit'.
      rewrite take_app_length in Hsplit'.
      rewrite Hmid, <- Hmid', take_app_length in Hsplit'. done. }
    subst before'. apply app_inv_head in Hsplit'.
    injection Hsplit' as <- <-. by apply IH.
Qed.

Lemma weight_insert_at i x lines :
  weight (insert_at i x lines) = (weight lines + Z.of_nat (length x) + 1)%Z.
Proof.
  unfold insert_at. rewrite weight_app. simpl.
  rewrite <- (take_drop i lines) at 3. rewrite weight_app. lia.
Qed.

Lemma insert_at_inserted i x lines : inserted_at i x lines (insert_at i x lines).
Proof.
  exists (take i lines), (drop i lines). split_and!.
  - by rewrite take_drop.
  - reflexivity.
  - destruct (decide (i <= length lines)) as [Hi|Hi].
    + left. rewrite length_take. lia.
    + right. split; [lia|]. apply drop_ge. lia.
Qed.

Lemma inserted_at_det i x lines out1 out2 :
  inserted_at i x lines out1 -> inserted_at i x lines out2 -> out1 = out2.
Proof.
  intros (b1 & a1 & E1 & -> & H1) (b2 & a2 & E2 & -> & H2).
  assert (Hb : b1 = b2).
  { destruct H1 as [H1|[H1 ->]], H2 as [H2|[H2 ->]].
    - apply (f_equal (take i)) in E1, E2.
      rewrite <- H1 in E1 at 2. rewrite <- H2 in E2 at 2.
      rewrite take_app_length in E1, E2. congruence.
    - rewrite app_nil_r in E2. subst b2.
      apply (f_equal length) in E1. rewrite length_app in E1. lia.
    - rewrite app_nil_r in E1. subst b1.
      apply (f_equal length) in E2. rewrite length_app in E2. lia.
    - rewrite !app_nil_r in *. congruence. }
  subst b2. rewrite E1 in E2. apply app_inv_head in E2. by subst.
Qed.

Lemma reference_commits_det lines v1 v2 :
  reference_commits lines v1 -> reference_commits lines v2 -> v1 = v2.
Proof.
  intros (r1 & o1 & Hr1 & Hi1 & ->) (r2 & o2 & Hr2 & Hi2 & ->).
  pose proof (removes_middle_det _ _ _ _ Hr1 Hr2) as <-.
  by rewrite (inserted_at_det _ _ _ _ _ Hi1 Hi2).
Qed.

(** What [commits_value] returns: it never raises, the value fits a
    field, and a long list is cut as the reference algorithm says. *)
Lemma commits_value_spec formatted :
  exists v,
    commits_value formatted = Ok v /\
    length v <= 1024 /\
    (length (join nl formatted) <= 1024 -> v = join nl formatted) /\
    (1024 < length (join nl formatted) -> reference_commits formatted v).
Proof.
  unfold commits_value.
  destruct (1024 <? length (join nl formatted)) eqn:Hlong.
  - apply Nat.ltb_lt in Hlong.
    assert (Hne : formatted <> []) by (intros ->; simpl in Hlong; lia).
    pose proof (join_nl_length formatted Hne) as Hj.
    destruct (while_diff_ok formatted
                (Z.of_nat (length (join nl formatted)) - 1024 + 4)%Z)
      as (rest & diff' & -> & Hd & Hinv & _ & Hrel); [lia|].
    eexists. split_and!; [reflexivity| |lia|].
    + assert (Hi : insert_at (length rest / 2 + 1) (lit "...") rest <> []).
      { unfold insert_at. by destruct (take _ rest). }
      pose proof (join_nl_length _ Hi) as Hj'.
      rewrite weight_insert_at in Hj'. change (length (lit "...")) with 3 in Hj'.
      lia.
    + intros _. exists rest, (insert_at (length rest / 2 + 1) (lit "...") rest).
      split_and!; [done|apply insert_at_inserted|done].
  - apply Nat.ltb_ge in Hlong. eexists. split_and!; [reflexivity|lia|done|lia].
Qed.

Lemma loop_body_decreases lines d rest d' :
  loop_body lines d = Ok (rest, d') ->
  (d' <= d - 1)%Z /\ S (length rest) = length lines.
Proof.
  unfold loop_body.
  destruct (pop _ lines) as [[line r]|] eqn:E; [|discriminate].
  intros [= <- <-]. apply pop_split in E as (b & a & -> & _ & ->).
  rewrite !length_app. simpl. lia.
Qed.

(** C10: on a list of formatted commit lines whose joined length exceeds
    1024, the truncation loop of make_embed ends without ever popping
    from an empty list.  The lines carry more than the initial [diff] in
    all (their lengths plus one each), every iteration removes one line
    and lowers [diff] by at least 1, and the loop returns with
    [diff <= 0] after at most as many iterations as there are lines. *)
Theorem truncation_loop_terminates (formatted : list str) :
  1024 < length (join nl formatted) ->
  let diff := (Z.of_nat (length (join nl formatted)) - 1024 + 4)%Z in
  formatted <> [] /\
  (diff < weight formatted)%Z /\
  (forall lines d rest d',
      loop_body lines d = Ok (rest, d') ->
      (d' <= d - 1)%Z /\ S (length rest) = length lines) /\
  exists rest diff',
    while_diff formatted diff = Ok (rest, diff') /\
    (diff' <= 0)%Z /\
    length rest <= length formatted /\
    commits_value formatted
    = Ok (join nl (insert_at (length rest / 2 + 1) (lit "...") rest)).
Proof.
  intros Hlong diff.
  assert (Hne : formatted <> []) by (intros ->; simpl in Hlong; lia).
  pose proof (join_nl_length formatted Hne) as Hj.
  split_and!; [done|subst diff; lia|apply loop_body_decreases|].
  destruct (while_diff_ok formatted diff)
    as (rest & diff' & Hrun & Hd & _ & Hl & _); [subst diff; lia|].
  exists rest, diff'. split_and!; [done..|].
  unfold commits_value. apply Nat.ltb_lt in Hlong. rewrite Hlong.
  fold diff. rewrite Hrun. reflexivity.
Qed.

(** ** make_embed *)

Lemma logged_nil w : logged w [] = w.
Proof. destruct w. unfold logged. simpl. by rewrite app_nil_r. Qed.

Lemma logged_logged w l1 l2 : logged (logged w l1) l2 = logged w (l1 ++ l2).
Proof. unfold logged. simpl. by rewrite app_assoc. Qed.

(** The run of [make_embed], stage by stage: a [null] body raises at
    once; the commits of a pull request are asked for, and the request
    or its answer may raise; then the line of a closed issue may raise;
    otherwise the embed has the description and the fields below. *)
Lemma make_embed_shape env data w r w' :
  make_embed env data w = (r, w') ->
  match body data with
  | None => r = Raise TypeError /\ w' = w
  | Some text =>
      exists commits_fields,
        match pull_request data with
        | None => w' = w /\ commits_fields = Ok []
        | Some pr =>
            w' = logged w [GetCommits (pr_url pr ++ lit "/commits")] /\
            match formatted_commits
                    (commits_response env
                       (log w ++ [GetCommits (pr_url pr ++ lit "/commits")]))
            with
            | Ok formatted =>
                exists v,
                  commits_value formatted = Ok v /\
                  commits_fields = Ok [{| name := lit "Commits"; value := v |}]
            | Raise ex => commits_fields = Raise ex
            end
        end /\
        match commits_fields with
        | Raise ex => r = Raise ex
        | Ok cf =>
            match (if bool_decide (state data = lit "closed")
                   then closed_line env data else Ok []) with
            | Raise ex => r = Raise ex
            | Ok _ =>
                exists e lines,
                  r = Ok e /\
                  embed_title e = title data /\
                  embed_url e = Some (html_url data) /\
                  description e =
                    Some (if 2048 <? length text
                          then take 2043 text ++ lit "[...]" else text) /\
                  fields e = cf ++ [{| name := lit "Additional informations";
                                       value := join nl lines |}]
            end
        end
  end.
Proof.
  cbv beta iota zeta delta
    [make_embed bind get_commits record history ret lift description
       len slice_to set_description].
  destruct (body data) as [text|]; [|by intros [= <- <-]].
  destruct (2048 <? length text);
  (destruct (pull_request data) as [pr|];
   [ cbn [log issue_embeds logged];
     destruct (commits_response env
                 (log w ++ [GetCommits (pr_url pr ++ lit "/commits")]))
       as [commits_data|ex]; cbn [formatted_commits];
     [ destruct (format_commits commits_data) as [formatted|ex];
       [ destruct (commits_value_spec formatted) as (v & Hv & _);
         rewrite Hv
       | intros [= <- <-]; exists (Raise ex); by split ]
     | intros [= <- <-]; exists (Raise ex); by split ]
   | ]);
  cbn [fst snd];
  (destruct (bool_decide (state data = lit "closed")) eqn:Hc;
   [ destruct (closed_line env data) as [line|ex] eqn:Hl
   | destruct (bool_decide (state data = lit "open")) ]);
  intros [= <- <-]; eexists (Ok _);
  (split; [first [ split; [reflexivity|eexists; split; reflexivity]
                 | split; reflexivity ]|]);
  first [ reflexivity
        | eexists _, _; split_and!; reflexivity ].
Qed.

(** What [make_embed_shape] says of a run that raises. *)
Lemma make_embed_raise env data w ex :
  (make_embed env data w).1 = Raise ex -> make_embed_raises env data w ex.
Proof.
  destruct (make_embed env data w) as [r w'] eqn:Hrun. cbn [fst]. intros ->.
  apply make_embed_shape in Hrun. unfold make_embed_raises.
  destruct (body data) as [text|]; [|destruct Hrun as [[= ->] _]; by left].
  destruct Hrun as (cf & Hcf & Hr). right.
  destruct cf as [cf|ex1].
  - right. destruct (bool_decide (state data = lit "closed")) eqn:Hc.
    + apply bool_decide_eq_true in Hc.
      destruct (closed_line env data) as [line|ex2].
      * by destruct Hr as (e & lines & [=] & _).
      * by injection Hr as ->.
    + by destruct Hr as (e & lines & [=] & _).
  - injection Hr as ->. left.
    destruct (pull_request data) as [pr|]; [|by destruct Hcf].
    destruct Hcf as [_ Hcf]. exists pr. split; [done|].
    destruct (formatted_commits _) as [formatted|ex2].
    + by destruct Hcf as (v & _ & [=]).
    + by injection Hcf as ->.
Qed.

(** What [make_embed_shape] says of the embed of a run that returns. *)
Lemma make_embed_ok env data w e :
  (make_embed env data w).1 = Ok e ->
  exists text commits_fields lines,
    body data = Some text /\
    description e =
      Some (if 2048 <? length text
            then take 2043 text ++ lit "[...]" else text) /\
    fields e = commits_fields
               ++ [{| name := lit "Additional informations";
                      value := join nl lines |}] /\
    match pull_request data with
    | None => commits_fields = []
    | Some pr =>
        exists formatted v,
          formatted_commits
            (commits_response env
               (log w ++ [GetCommits (pr_url pr ++ lit "/commits")]))
          = Ok formatted /\
          commits_value formatted = Ok v /\
          commits_fields = [{| name := lit "Commits"; value := v |}]
    end.
Proof.
  destruct (make_embed env data w) as [r w'] eqn:Hrun. cbn [fst]. intros ->.
  apply make_embed_shape in Hrun.
  destruct (body data) as [text|]; [|by destruct Hrun as [[=] _]].
  destruct Hrun as (cf & Hcf & Hr).
  destruct cf as [cf|ex]; [|done].
  destruct (if bool_decide (state data = lit "closed")
            then closed_line env data else Ok []) as [line|ex]; [|done].
  destruct Hr as (e' & lines & [= <-] & _ & _ & Hd & Hf).
  exists text, cf, lines. split_and!; [done..|].
  destruct (pull_request data) as [pr|].
  - destruct Hcf as [_ Hcf].
    destruct (formatted_commits _) as [formatted|ex]; [|done].
    destruct Hcf as (v & Hv & [= ->]). eauto.
  - destruct Hcf as [_ [= ->]]. done.
Qed.

(** C4: on an issue whose body is a text, the description of the embed
    [make_embed] returns is the body when it has at most 2048
    characters, and otherwise its first 2043 characters followed by
    "[...]", 2048 characters in all; so it never has more than 2048
    characters.  On an issue whose body is [null], [make_embed] raises
    TypeError at line 56, before anything else: there is no embed. *)
Theorem description_truncated env (data : IssueData) (w : World) :
  match body data with
  | None => make_embed env data w = (Raise TypeError, w)
  | Some text =>
      match (make_embed env data w).1 with
      | Ok e =>
          (length text <= 2048 -> description e = Some text) /\
          (2048 < length text ->
           description e = Some (take 2043 text ++ lit "[...]")) /\
          exists d, description e = Some d /\ length d <= 2048 /\
                    (2048 < length text -> length d = 2048)
      | Raise ex => make_embed_raises env data w ex
      end
  end.
Proof.
  destruct (body data) as [text|] eqn:Hbody.
  - destruct (make_embed env data w).1 as [e|ex] eqn:Hrun.
    + apply make_embed_ok in Hrun
        as (text' & cf & lines & Htext & Hd & _).
      rewrite Hbody in Htext. injection Htext as <-. rewrite Hd.
      destruct (2048 <? length text) eqn:Hlong.
      * apply Nat.ltb_lt in Hlong.
        assert (length (take 2043 text ++ lit "[...]") = 2048).
        { rewrite length_app, length_take.
          change (length (lit "[...]")) with 5. lia. }
        split_and!; [lia|done|]. eexists. split_and!; [done|lia|done].
      * apply Nat.ltb_ge in Hlong.
        split_and!; [done|lia|]. eexists. split_and!; [done|lia|lia].
    + by apply make_embed_raise.
  - destruct (make_embed env data w) as [r w'] eqn:Hrun.
    apply make_embed_shape in Hrun. rewrite Hbody in Hrun.
    by destruct Hrun as [-> ->].
Qed.

(** An open issue without text: no embed, and no action either. *)
Example description_of_null_body :
  make_embed (simple_env 200 200 null_body_issue []) null_body_issue start
  = (Raise TypeError, start) /\
  (on_message (simple_env 200 200 null_body_issue []) (human (lit "#1"))
     start).1
  = Raise TypeError.
Proof. split; vm_compute; reflexivity. Qed.

(** The third testable property of the specification: a body of 3000
    characters gives a description of 2048, the last five of them the
    marker. *)
Example description_of_3000 :
  exists e,
    (make_embed (simple_env 200 200 open_issue [])
       {| title := lit "T"; html_url := lit "u";
          body := Some (repeat (ch "b") 3000); user := octocat;
          locked := false;
          pull_request := None; comments := 0; state := lit "open";
          closed_at := None; closed_by := None; labels := [] |} start).1
    = Ok e /\
    exists d,
      description e = Some d /\
      length d = 2048 /\
      drop 2043 d = lit "[...]".
Proof.
  eexists. split; [vm_compute; reflexivity|].
  eexists. split_and!; vm_compute; reflexivity.
Qed.

(** C1: when the formatted commits of a pull request, joined by line
    feeds, exceed 1024 characters, the first field of the embed
    [make_embed] returns is the Commits field and its value is the one
    the reference algorithm gives ([reference_commits]: remove the
    middle line while the excess is positive, insert "..." at index
    count/2 + 1, rejoin), and no other value.  [formatted] are the
    lines of the commits the request answered. *)
Theorem commits_field_reference env (data : IssueData) (pr : PullRequest)
    (w : World) (formatted : list str) :
  pull_request data = Some pr ->
  formatted_commits
    (commits_response env
       (log w ++ [GetCommits (pr_url pr ++ lit "/commits")]))
  = Ok formatted ->
  1024 < length (join nl formatted) ->
  match (make_embed env data w).1 with
  | Ok e =>
      exists v,
        fields e !! 0 = Some {| name := lit "Commits"; value := v |} /\
        reference_commits formatted v /\
        forall v', reference_commits formatted v' -> v' = v
  | Raise ex => make_embed_raises env data w ex
  end.
Proof.
  intros Hpr Hformatted Hlong.
  destruct (make_embed env data w).1 as [e|ex] eqn:Hrun;
    [|by apply make_embed_raise].
  apply make_embed_ok in Hrun as (text & cf & lines & _ & _ & -> & Hcf).
  rewrite Hpr in Hcf. destruct Hcf as (formatted' & v & Hf & Hv & ->).
  rewrite Hformatted in Hf. injection Hf as <-.
  destruct (commits_value_spec formatted) as (v0 & Hv0 & _ & _ & Href).
  assert (v0 = v) as -> by congruence.
  exists v. split_and!; [done|by apply Href|].
  intros v' Hv'. eapply reference_commits_det; eauto.
Qed.

(** C3, as the code has it: every field of the embed [make_embed]
    returns other than "Additional informations", that is the Commits
    field of a pull request, has a value of at most 1024 characters. *)
Theorem commits_field_bounded env (data : IssueData) (w : World) :
  match (make_embed env data w).1 with
  | Ok e =>
      Forall (fun f => name f <> lit "Additional informations" ->
                       length (value f) <= 1024) (fields e)
  | Raise ex => make_embed_raises env data w ex
  end.
Proof.
  destruct (make_embed env data w).1 as [e|ex] eqn:Hrun;
    [|by apply make_embed_raise].
  apply make_embed_ok in Hrun as (text & cf & lines & _ & _ & -> & Hcf).
  apply Forall_app. split.
  - destruct (pull_request data) as [pr|].
    + destruct Hcf as (formatted & v & _ & Hv & ->).
      apply Forall_singleton. intros _. cbn [value].
      destruct (commits_value_spec formatted) as (v0 & Hv0 & Hle & _).
      congruence.
    + rewrite Hcf. constructor.
  - apply Forall_singleton. intros Hn. by destruct Hn.
Qed.

(** C3 fails as stated: an open issue with a single label whose name
    has 1100 characters gives an "Additional informations" field of
    more than 1024 characters. *)
Lemma additional_informations_unbounded :
  exists e,
    (make_embed (simple_env 200 200 open_issue []) long_label_issue start).1
    = Ok e /\
    Exists (fun f => name f = lit "Additional informations" /\
                     1024 < length (value f)) (fields e).
Proof.
  eexists. split; [vm_compute; reflexivity|].
  apply Exists_cons_hd. split; [reflexivity|].
  vm_compute. lia.
Qed.

Lemma truncation_loop_terminates_witness :
  1024 < length (join nl ten_lines) /\
  exists rest diff',
    while_diff ten_lines 80 = Ok (rest, diff') /\ (diff' <= 0)%Z.
Proof.
  split; [vm_compute; lia|].
  destruct (truncation_loop_terminates ten_lines)
    as (_ & _ & _ & rest & diff' & Hrun & Hd & _); [vm_compute; lia|].
  exists rest, diff'. split; [exact Hrun|exact Hd].
Defined.

(** The fourth testable property of the specification, on [ten_lines]:
    one line goes (the sixth, index 10/2), and "..." comes at index
    9/2 + 1 = 5. *)
Example commits_value_ten_lines :
  commits_value ten_lines
  = Ok (join nl (take 5 ten_lines ++ lit "..." :: drop 6 ten_lines)).
Proof. vm_compute. reflexivity. Qed.

(** A single line longer than 1020 characters leaves "..." alone. *)
Example commits_value_one_long_line :
  commits_value [repeat (ch "a") 1500] = Ok (lit "...").
Proof. vm_compute. reflexivity. Qed.

Lemma commits_field_reference_witness :
  match (make_embed (simple_env 200 200 open_pull twelve_commits)
           open_pull start).1 with
  | Ok e =>
      exists v,
        fields e !! 0 = Some {| name := lit "Commits"; value := v |} /\
        reference_commits twelve_lines v /\
        forall v', reference_commits twelve_lines v' -> v' = v
  | Raise ex =>
      make_embed_raises (simple_env 200 200 open_pull twelve_commits)
        open_pull start ex
  end.
Proof.
  apply (commits_field_reference
           (simple_env 200 200 open_pull twelve_commits) open_pull
           {| pr_url :=
                lit "https://api.github.com/repos/omega-numworks/omega/pulls/2" |}
           start twelve_lines).
  - reflexivity.
  - vm_compute. reflexivity.
  - vm_compute. lia.
Defined.

(** ** Regular expressions *)

Example extracted_two : 
  extracted (lit "#1 #2e")
  = [(lit "1", lit "omega-numworks/omega"); (lit "2", lit "numworks/epsilon")].
Proof. vm_compute. reflexivity. Qed.

Example references_two :
  references is_blank is_nil (lit "#1 #2e")
  = [(lit "1", sel_default); (lit "2", sel_e)].
Proof. vm_compute. reflexivity. Qed.

Lemma exec_right_end j r :
  exec right_end j r K
  = if at_eol r then Some j else if space_next is_blank r then Some (S j) else None.
Proof.
  unfold right_end, K. cbn [exec].
  destruct (at_eol r); [done|]. destruct r as [|c r']; [done|].
  cbn [space_next]. unfold is_blank. by destruct (c =? ch " ")%N.
Qed.

Lemma digit_not_eul c : digit c = true -> eul c = false.
Proof.
  unfold digit, eul, range, ch. cbn.
  intros H. apply andb_true_iff in H as [H1 H2].
  apply N.leb_le in H1, H2.
  repeat (apply orb_false_iff; split); apply N.eqb_neq; lia.
Qed.

Lemma digit_not_space c : digit c = true -> (c =? ch " ")%N = false.
Proof.
  unfold digit, range, ch. cbn.
  intros H. apply andb_true_iff in H as [H1 H2].
  apply N.leb_le in H1, H2. apply N.eqb_neq; lia.
Qed.

Lemma digit_not_nl c : digit c = true -> (c =? 10)%N = false.
Proof.
  unfold digit, range, ch. cbn.
  intros H. apply andb_true_iff in H as [H1 H2].
  apply N.leb_le in H1, H2. apply N.eqb_neq; lia.
Qed.

Lemma after_digits_digit j c r :
  digit c = true -> exec after_digits j (c :: r) K = None.
Proof.
  intros Hd. unfold after_digits. cbn [exec].
  rewrite (digit_not_eul c Hd).
  change (exec right_end j (c :: r) K = None).
  rewrite exec_right_end. cbn [at_eol space_next]. unfold is_blank.
  rewrite (digit_not_space c Hd).
  destruct r; [|done]. by rewrite (digit_not_nl c Hd).
Qed.

Lemma leading_digits_spec s ds r :
  leading_digits s = (ds, r) ->
  s = ds ++ r /\ forallb digit ds = true /\
  match r with c :: _ => digit c = false | [] => True end.
Proof.
  revert ds r. induction s as [|c t IH]; intros ds r.
  - intros [= <- <-]. done.
  - cbn [leading_digits]. destruct (digit c) eqn:Hc.
    + destruct (leading_digits t) as [ds' r'].
      intros [= <- <-]. destruct (IH _ _ eq_refl) as (-> & Hall & Hr).
      cbn [forallb]. rewrite Hc, Hall. done.
    + intros [= <- <-]. done.
Qed.

Lemma plus_digits (k : nat -> str -> option nat) j s :
  (forall j c r, digit c = true -> k j (c :: r) = None) ->
  plus digit j s k
  = let (ds, r) := leading_digits s in
    match ds with
    | [] => None
    | _ :: _ => k (j + length ds) r
    end.
Proof.
  intros Hk. revert j. induction s as [|c t IH]; intros j; [done|].
  cbn [plus leading_digits]. destruct (digit c) eqn:Hc; [|done].
  rewrite IH. destruct (leading_digits t) as [ds r] eqn:Hds.
  apply leading_digits_spec in Hds as (-> & Hall & _).
  destruct ds as [|d ds'].
  - cbn [length app]. by replace (j + 1) with (S j) by lia.
  - cbn [length].
    replace (j + S (S (length ds'))) with (S j + S (length ds')) by lia.
    destruct (k _ r); [done|].
    cbn [forallb] in Hall. apply andb_true_iff in Hall as [Hd _].
    by apply (Hk (S j) d (ds' ++ r)).
Qed.

Lemma eul_letter_selector c :
  eul c = true <-> is_Some (letter_selector c).
Proof.
  unfold eul, letter_selector.
  destruct (c =? ch "e")%N, (c =? ch "u")%N, (c =? ch "l")%N; cbn;
    split; (eauto || intros [? [=]] || done).
Qed.

Lemma letter_text_selector c sel :
  letter_selector c = Some sel -> letter_text sel = [c].
Proof.
  unfold letter_selector.
  destruct (c =? ch "e")%N eqn:He; [apply N.eqb_eq in He as ->; by intros [= <-]|].
  destruct (c =? ch "u")%N eqn:Hu; [apply N.eqb_eq in Hu as ->; by intros [= <-]|].
  destruct (c =? ch "l")%N eqn:Hl; [apply N.eqb_eq in Hl as ->; by intros [= <-]|].
  done.
Qed.

Lemma eul_not_end c r :
  eul c = true -> at_eol (c :: r) || space_next is_blank (c :: r) = false.
Proof.
  unfold eul, at_eol, space_next, is_blank, ch. cbn. intros H.
  apply orb_false_iff. split.
  - destruct r; [|done]. apply N.eqb_neq. intros ->. discriminate.
  - apply N.eqb_neq. intros ->. discriminate.
Qed.

Lemma not_eul_selector c : eul c = false -> letter_selector c = None.
Proof.
  intros H. destruct (letter_selector c) eqn:E; [|done].
  assert (eul c = true) by (apply eul_letter_selector; eauto). congruence.
Qed.

Lemma exec_after_hash j s :
  exec after_hash j s K
  = match token_text s with
    | Some text => Some (j + length text)
    | None => None
    end.
Proof.
  unfold after_hash. cbn [exec].
  rewrite plus_digits
    by (intros; change (exec after_digits j0 (c :: r) K = None);
        by apply after_digits_digit).
  unfold token_text, token.
  destruct (leading_digits s) as [ds r] eqn:Hds.
  destruct ds as [|d ds']; [done|].
  unfold after_digits. cbn [exec].
  change (Alt Eol (Chr (ch " "))) with right_end.
  destruct r as [|c r'].
  - rewrite exec_right_end. cbn. f_equal. rewrite length_app. cbn. lia.
  - destruct (eul c) eqn:Hc.
    + rewrite !exec_right_end. rewrite (eul_not_end c r' Hc).
      pose proof (eul_not_end c r' Hc) as Hn.
      apply orb_false_iff in Hn as [-> ->].
      destruct (proj1 (eul_letter_selector c) Hc) as [sel Hsel].
      rewrite Hsel. unfold trailing.
      destruct (at_eol r') eqn:He; cbn [orb].
      * rewrite (letter_text_selector _ _ Hsel). cbn [length skipn]. rewrite ?drop_0.
        rewrite He. f_equal. rewrite !length_app. change (length (lit " ")) with 1. cbn [length]. lia.
      * destruct (space_next is_blank r'); [|done].
        rewrite (letter_text_selector _ _ Hsel). cbn [length skipn]. rewrite ?drop_0.
        rewrite He. f_equal. rewrite !length_app. change (length (lit " ")) with 1. cbn [length]. lia.
    + rewrite exec_right_end. rewrite (not_eul_selector c Hc).
      unfold trailing.
      destruct (at_eol (c :: r')) eqn:He; cbn [orb].
      * cbn [letter_text length skipn]. rewrite ?drop_0. rewrite He.
        f_equal. rewrite !length_app. change (length (lit " ")) with 1. cbn [length]. lia.
      * destruct (space_next is_blank (c :: r')); [|done].
        cbn [letter_text length skipn]. rewrite ?drop_0. rewrite He.
        f_equal. rewrite !length_app. change (length (lit " ")) with 1. cbn [length]. lia.
Qed.

Lemma token_inv ends s ds sel :
  token is_blank ends s = Some (ds, sel) ->
  exists r, leading_digits s = (ds, r) /\ ds <> [].
Proof.
  unfold token. destruct (leading_digits s) as [ds0 r].
  destruct ds0 as [|d ds']; [done|].
  destruct (ends r || space_next is_blank r); [intros [= <- <-]; eauto|].
  destruct r as [|c r']; [done|].
  destruct (letter_selector c); [|done].
  destruct (ends r' || space_next is_blank r'); [|done].
  intros [= <- <-]; eauto.
Qed.

Lemma space_next_cons r :
  space_next is_blank r = true -> exists r', r = ch " " :: r'.
Proof.
  destruct r as [|c r']; [done|]. cbn. unfold is_blank. intros H.
  apply N.eqb_eq in H as ->. eauto.
Qed.

(** The text of a match: the digits and the letter of the reference,
    with a space behind them unless the text ends there. *)
Ltac solve_app :=
  repeat first [ rewrite <- app_assoc | rewrite app_nil_r
               | progress cbn [app] ];
  done.

Lemma token_text_some s text :
  token_text s = Some text ->
  exists ds sel tail rest,
    token is_blank at_eol s = Some (ds, sel) /\
    text = ds ++ letter_text sel ++ tail /\
    (tail = [] \/ tail = lit " ") /\
    s = text ++ rest /\
    ds <> [] /\ forallb digit ds = true.
Proof.
  unfold token_text, token.
  destruct (leading_digits s) as [ds r] eqn:Hds.
  apply leading_digits_spec in Hds as (-> & Hall & _).
  destruct ds as [|d ds']; [done|].
  unfold trailing.
  destruct (at_eol r || space_next is_blank r) eqn:Hb.
  - intros [= <-]. cbn [letter_text length]. rewrite drop_0.
    exists (d :: ds'), sel_default. cbn [letter_text app].
    destruct (at_eol r) eqn:He.
    + exists [], r. split_and!; eauto. solve_app.
    + cbn [orb] in Hb. apply space_next_cons in Hb as [r' ->].
      exists (lit " "), r'. split_and!; eauto.
      change (lit " ") with [ch " "]. solve_app.
  - destruct r as [|c r']; [done|].
    destruct (letter_selector c) as [sel|] eqn:Hsel; [|done].
    destruct (at_eol r' || space_next is_blank r') eqn:Hb'; [|done].
    intros [= <-]. rewrite (letter_text_selector _ _ Hsel).
    cbn [length skipn]. rewrite drop_0.
    exists (d :: ds'), sel. rewrite (letter_text_selector _ _ Hsel).
    destruct (at_eol r') eqn:He.
    + exists [], r'. split_and!; eauto.
      solve_app.
    + cbn [orb] in Hb'. apply space_next_cons in Hb' as [r'' ->].
      exists (lit " "), r''. split_and!; eauto.
      change (lit " ") with [ch " "]. solve_app.
Qed.

Lemma token_text_none s : token_text s = None -> token is_blank at_eol s = None.
Proof.
  unfold token_text. destruct (leading_digits s) as [ds r].
  by destruct (token is_blank at_eol s) as [[? ?]|].
Qed.

(** ** [str.strip] *)
Lemma lstrip_members chars pre s :
  forallb (fun c => contains c chars) pre = true ->
  lstrip chars (pre ++ s) = lstrip chars s.
Proof.
  induction pre as [|c pre IH]; [done|]. cbn [forallb app lstrip].
  intros H. apply andb_true_iff in H as [-> H]. auto.
Qed.

Lemma lstrip_stop chars c s :
  contains c chars = false -> lstrip chars (c :: s) = c :: s.
Proof. intros H. cbn [lstrip]. by rewrite H. Qed.

Lemma strip_middle chars pre first mid last post :
  forallb (fun c => contains c chars) pre = true ->
  forallb (fun c => contains c chars) post = true ->
  contains first chars = false ->
  contains last chars = false ->
  strip chars (pre ++ (first :: mid ++ [last]) ++ post)
  = first :: mid ++ [last].
Proof.
  intros Hpre Hpost Hf Hl. unfold strip, rstrip.
  rewrite lstrip_members by done.
  cbn [app]. rewrite lstrip_stop by done.
  transitivity (rev (rev (first :: mid ++ [last])));
    [|apply rev_involutive]. f_equal.
  change (first :: (mid ++ [last]) ++ post)
    with ((first :: mid ++ [last]) ++ post).
  rewrite rev_app_distr. rewrite lstrip_members.
  - change (first :: mid ++ [last]) with ((first :: mid) ++ [last]).
    rewrite rev_app_distr. cbn [rev app]. by rewrite lstrip_stop.
  - rewrite forallb_forall in *. intros x Hx. apply Hpost.
    by apply in_rev.
Qed.

(** The same with a middle of one character or more. *)
Lemma strip_middle' chars pre mid post :
  forallb (fun c => contains c chars) pre = true ->
  forallb (fun c => contains c chars) post = true ->
  mid <> [] ->
  forallb (fun c => negb (contains c chars)) mid = true ->
  strip chars (pre ++ mid ++ post) = mid.
Proof.
  intros Hpre Hpost Hne Hmid.
  destruct mid as [|first mid]; [done|].
  destruct (decide (mid = [])) as [->|Hm].
  - cbn [forallb] in Hmid. apply andb_true_iff in Hmid as [Hf _].
    apply negb_true_iff in Hf.
    unfold strip, rstrip. rewrite lstrip_members by done.
    cbn [app]. rewrite lstrip_stop by done.
    change (first :: post) with ([first] ++ post).
    rewrite rev_app_distr, lstrip_members.
    + cbn [rev app]. by rewrite lstrip_stop.
    + rewrite forallb_forall in *. intros x Hx. apply Hpost. by apply in_rev.
  - destruct (exists_last Hm) as (mid' & last & ->).
    rewrite forallb_forall in Hmid.
    apply strip_middle; [done|done|..].
    + apply negb_true_iff, Hmid. by left.
    + apply negb_true_iff, Hmid. right. apply in_app_iff. right. by left.
Qed.

Lemma digit_range c : digit c = true -> (48 <= c <= 57)%N.
Proof.
  unfold digit, range, ch. cbn. intros H.
  apply andb_true_iff in H as [H1 H2]. apply N.leb_le in H1, H2. lia.
Qed.

Lemma contains_cons c x s :
  contains c (x :: s) = (c =? x)%N || contains c s.
Proof. reflexivity. Qed.

Lemma contains_app c s1 s2 :
  contains c (s1 ++ s2) = contains c s1 || contains c s2.
Proof. apply existsb_app. Qed.

(** No digit is one of the characters [x]. *)
Lemma digits_outside (chars : str) ds :
  forallb (fun x => negb (digit x)) chars = true ->
  forallb digit ds = true ->
  forallb (fun c => negb (contains c chars)) ds = true.
Proof.
  intros Hc Hd. rewrite forallb_forall in *. intros c Hin.
  apply negb_true_iff. apply not_true_iff_false. intros Hcc.
  apply existsb_exists in Hcc as (x & Hx & Heq). apply N.eqb_eq in Heq as <-.
  specialize (Hc _ Hx). rewrite (Hd _ Hin) in Hc. done.
Qed.

Lemma digits_without c ds :
  digit c = false -> forallb digit ds = true -> contains c ds = false.
Proof.
  intros Hc Hd. apply not_true_iff_false. intros Hcc.
  apply existsb_exists in Hcc as (x & Hx & Heq). apply N.eqb_eq in Heq as <-.
  rewrite forallb_forall in Hd. rewrite (Hd _ Hx) in Hc. done.
Qed.

Lemma strip_tail chars mid post :
  forallb (fun c => contains c chars) post = true ->
  mid <> [] ->
  forallb (fun c => negb (contains c chars)) mid = true ->
  strip chars (mid ++ post) = mid.
Proof. intros. by apply (strip_middle' chars [] mid post). Qed.

Lemma strip_keep chars mid :
  mid <> [] ->
  forallb (fun c => negb (contains c chars)) mid = true ->
  strip chars mid = mid.
Proof.
  intros. rewrite <- (app_nil_r mid) at 1. by apply strip_tail.
Qed.

(** The number and the repository the code reads off a match are the
    digits and the repository of the reference. *)
Lemma text_reference lead ds sel tail :
  lead = lit "#" \/ lead = lit " #" ->
  tail = [] \/ tail = lit " " ->
  ds <> [] -> forallb digit ds = true ->
  let text := lead ++ ds ++ letter_text sel ++ tail in
  issue_of text = ds /\ repo_of text = repository sel.
Proof.
  intros Hlead Htail Hne Hd text. split.
  - unfold issue_of. subst text.
    assert (Hds : forall x, ds ++ lit x <> []) by (by destruct ds).
    assert (Ho : forall chars,
               forallb (fun x => negb (digit x)) chars = true ->
               forallb (fun c => negb (contains c chars)) ds = true)
      by (intros; by apply digits_outside).
    assert (Ho' : forall chars x,
               forallb (fun x => negb (digit x)) chars = true ->
               forallb (fun c => negb (contains c chars)) (lit x) = true ->
               forallb (fun c => negb (contains c chars)) (ds ++ lit x) = true)
      by (intros; rewrite forallb_app, Ho; done).
    destruct sel; cbn [letter_text].
    + rewrite strip_middle'
        by first [ done | by destruct Hlead as [-> | ->]
                 | by destruct Htail as [-> | ->] | by apply Ho ].
      rewrite (strip_keep (lit "#u ")) by first [done | by apply Ho].
      rewrite (strip_keep (lit "#l ")) by first [done | by apply Ho].
      done.
    + rewrite strip_middle'
        by first [ done | by destruct Hlead as [-> | ->]
                 | by destruct Htail as [-> | ->] | by apply Ho ].
      rewrite (strip_keep (lit "#u ")) by first [done | by apply Ho].
      rewrite (strip_keep (lit "#l ")) by first [done | by apply Ho].
      done.
    + rewrite (app_assoc ds).
      rewrite strip_middle'
        by first [ done | by destruct Hlead as [-> | ->]
                 | by destruct Htail as [-> | ->] | by apply Ho' ].
      rewrite (strip_tail (lit "#u ")) by first [done | by apply Ho].
      rewrite (strip_keep (lit "#l ")) by first [done | by apply Ho].
      done.
    + rewrite (app_assoc ds).
      rewrite strip_middle'
        by first [ done | by destruct Hlead as [-> | ->]
                 | by destruct Htail as [-> | ->] | by apply Ho' ].
      rewrite (strip_keep (lit "#u ")) by first [done | by apply Ho'].
      rewrite (strip_tail (lit "#l ")) by first [done | by apply Ho].
      done.
  - unfold repo_of. subst text. rewrite !contains_app.
    rewrite !(digits_without _ ds) by done.
    destruct Hlead as [-> | ->], Htail as [-> | ->], sel; reflexivity.
Qed.

Lemma match_at_lookahead i s :
  match_at issue_lookahead i s
  = match here_text i s with
    | Some text => Some (i + length text)
    | None => None
    end.
Proof.
  unfold match_at.
  change issue_lookahead
    with (Cat (Alt Bol (Chr (ch " "))) (Cat (Chr (ch "#")) after_hash)).
  cbn [exec]. fold K.
  destruct s as [|c t]; [by destruct (Nat.eqb i 0)|].
  cbn [here_text].
  destruct (c =? ch "#")%N eqn:Hh.
  - apply N.eqb_eq in Hh as ->. change (ch "#" =? ch " ")%N with false.
    destruct (Nat.eqb i 0) eqn:Hi.
    + rewrite exec_after_hash. destruct (token_text t); cbn; [|done].
      f_equal. lia.
    + done.
  - assert (Hbol : (if Nat.eqb i 0 then @None nat else None) = None)
      by (by destruct (Nat.eqb i 0)).
    rewrite Hbol. destruct (c =? ch " ")%N; [|done].
    destruct t as [|c' t']; [done|].
    destruct (c' =? ch "#")%N; [|done].
    rewrite exec_after_hash. destruct (token_text t'); cbn; [|done].
    f_equal. lia.
Qed.

Lemma here_text_prefix i s text :
  here_text i s = Some text -> take (length text) s = text.
Proof.
  unfold here_text. destruct s as [|c t]; [done|].
  destruct (c =? ch "#")%N.
  - destruct (Nat.eqb i 0); [|done].
    destruct (token_text t) as [x|] eqn:Ht; [|done]. intros [= <-].
    apply token_text_some in Ht as (_ & _ & _ & rest & _ & _ & _ & -> & _).
    cbn [length take]. f_equal. by rewrite take_app_length.
  - destruct (c =? ch " ")%N; [|done].
    destruct t as [|c' t']; [done|].
    destruct (c' =? ch "#")%N; [|done].
    destruct (token_text t') as [x|] eqn:Ht; [|done]. intros [= <-].
    apply token_text_some in Ht as (_ & _ & _ & rest & _ & _ & _ & -> & _).
    cbn [length take]. do 2 f_equal. by rewrite take_app_length.
Qed.

Lemma token_text_reference lead t :
  lead = lit "#" \/ lead = lit " #" ->
  map ref_of_text (option_list (option_map (app lead) (token_text t)))
  = map spec_ref (option_list (token is_blank at_eol t)).
Proof.
  intros Hlead. destruct (token_text t) as [x|] eqn:Ht.
  - apply token_text_some in Ht
      as (ds & sel & tail & rest & -> & -> & Htail & _ & Hne & Hd).
    cbn. unfold ref_of_text, spec_ref. cbn [fst snd].
    destruct (text_reference lead ds sel tail Hlead Htail Hne Hd) as [-> ->].
    done.
  - by rewrite (token_text_none _ Ht).
Qed.

Lemma findall_here i s :
  match match_at issue_lookahead i s with
  | Some j => [take (j - i) s]
  | None => []
  end = option_list (here_text i s).
Proof.
  rewrite match_at_lookahead. destruct (here_text i s) as [text|] eqn:H; [|done].
  cbn. replace (i + length text - i) with (length text) by lia.
  by rewrite (here_text_prefix _ _ _ H).
Qed.

Lemma findall_tokens i s :
  map ref_of_text (findall_from issue_lookahead i s)
  = map spec_ref (tokens_from is_blank at_eol (Nat.eqb i 0) s).
Proof.
  revert i. induction s as [|c t IH]; intros i.
  - cbn [findall_from tokens_from]. rewrite findall_here. done.
  - cbn [findall_from tokens_from]. rewrite findall_here.
    rewrite !map_app, IH. cbn [Nat.eqb].
    change (is_blank c) with (c =? ch " ")%N.
    destruct (c =? ch "#")%N eqn:Hh.
    + apply N.eqb_eq in Hh as ->. cbn [here_text].
      change (ch "#" =? ch "#")%N with true.
      change (ch "#" =? ch " ")%N with false. cbn [andb].
      destruct (Nat.eqb i 0); [|done]. f_equal.
      apply (token_text_reference (lit "#") t). by left.
    + cbn [andb app map]. cbn [here_text]. rewrite Hh.
      destruct (c =? ch " ")%N eqn:Hs; [|done].
      apply N.eqb_eq in Hs as ->.
      destruct t as [|c' t']; [done|].
      cbn [tokens_from]. rewrite !map_app.
      change (is_blank c') with (c' =? ch " ")%N.
      destruct (c' =? ch "#")%N eqn:Hh'; [|done].
      apply N.eqb_eq in Hh' as ->. cbn [andb app map].
      f_equal. apply (token_text_reference (lit " #") t'). by right.
Qed.

Lemma extracted_references text :
  extracted text = map spec_ref (references is_blank at_eol text).
Proof. apply (findall_tokens 0 text). Qed.

(** ** The end of the text *)
Lemma leading_digits_suffix s ds r :
  leading_digits s = (ds, r) -> r `suffix_of` s.
Proof.
  intros H. apply leading_digits_spec in H as (-> & _). by exists ds.
Qed.

Lemma token_ext ends1 ends2 s :
  (forall r, r `suffix_of` s -> ends1 r = ends2 r) ->
  token is_blank ends1 s = token is_blank ends2 s.
Proof.
  intros H. unfold token. destruct (leading_digits s) as [ds r] eqn:Hds.
  apply leading_digits_suffix in Hds.
  destruct ds as [|d ds']; [done|].
  rewrite (H r Hds). destruct (ends2 r || space_next is_blank r); [done|].
  destruct r as [|c r']; [done|].
  destruct (letter_selector c); [|done].
  rewrite (H r'); [done|].
  etrans; [|exact Hds]. by apply suffix_cons_r.
Qed.

Lemma tokens_from_ext ends1 ends2 bounded s :
  (forall r, r `suffix_of` s -> ends1 r = ends2 r) ->
  tokens_from is_blank ends1 bounded s = tokens_from is_blank ends2 bounded s.
Proof.
  revert bounded. induction s as [|c t IH]; intros bounded H; [done|].
  cbn [tokens_from].
  rewrite (token_ext ends1 ends2 t), IH; [done|..];
    intros r Hr; apply H; by apply suffix_cons_r.
Qed.

Lemma at_eol_is_nil s r :
  last s <> Some 10%N -> r `suffix_of` s -> at_eol r = is_nil r.
Proof.
  intros Hlast [k ->]. destruct r as [|c [|c' r']]; [done| |done].
  cbn. apply N.eqb_neq. intros ->. apply Hlast.
  by rewrite last_snoc.
Qed.

(** ** The test of on_message (line 179) *)
Lemma exec_letters {A} j s (k : nat -> str -> option A) :
  exec (Alt (Chr (ch "e")) (Alt (Chr (ch "u")) (Chr (ch "l")))) j s k
  = exec (Cls eul) j s k.
Proof.
  cbn [exec]. destruct s as [|x t]; [done|]. unfold eul.
  destruct (x =? ch "e")%N eqn:He.
  - apply N.eqb_eq in He as ->. cbn. by destruct (k (S j) t).
  - destruct (x =? ch "u")%N eqn:Hu.
    + apply N.eqb_eq in Hu as ->. cbn. by destruct (k (S j) t).
    + by destruct (x =? ch "l")%N.
Qed.

Lemma plus_ext {A} p j s (k1 k2 : nat -> str -> option A) :
  (forall j t, k1 j t = k2 j t) -> plus p j s k1 = plus p j s k2.
Proof.
  intros H. revert j. induction s as [|c t IH]; intros j; [done|].
  cbn [plus]. destruct (p c); [|done]. by rewrite IH, H.
Qed.

Lemma match_at_ext (r1 r2 : regex) :
  (forall j t, match_at r1 j t = match_at r2 j t) ->
  forall i s,
    match_at (Cat (Alt Bol (Chr (ch " "))) (Cat (Chr (ch "#")) r1)) i s
    = match_at (Cat (Alt Bol (Chr (ch " "))) (Cat (Chr (ch "#")) r2)) i s.
Proof.
  unfold match_at. intros H i s. cbn [exec].
  destruct (Nat.eqb i 0); destruct s as [|c [|c' t]]; cbn [exec];
    rewrite ?H; done.
Qed.

Lemma match_at_issue_pattern i s :
  match_at issue_pattern i s = match_at issue_lookahead i s.
Proof.
  apply match_at_ext. clear. intros j t. unfold match_at.
  change (plus digit j t
            (fun j0 t0 =>
               exec (Cat (Opt (Alt (Chr (ch "e"))
                                 (Alt (Chr (ch "u")) (Chr (ch "l")))))
                         (Alt Eol (Chr (ch " ")))) j0 t0 K)
          = plus digit j t (fun j0 t0 => exec after_digits j0 t0 K)).
  apply plus_ext. intros j0 t0.
  transitivity
    (match exec (Alt (Chr (ch "e")) (Alt (Chr (ch "u")) (Chr (ch "l"))))
             j0 t0 (fun j1 t1 => exec right_end j1 t1 K) with
     | Some a => Some a
     | None => exec right_end j0 t0 K
     end); [reflexivity|].
  by rewrite exec_letters.
Qed.

Lemma search_findall i s :
  search_from issue_pattern i s
  = match findall_from issue_lookahead i s with [] => false | _ :: _ => true end.
Proof.
  revert i. induction s as [|c t IH]; intros i;
    cbn [search_from findall_from]; rewrite match_at_issue_pattern.
  - by destruct (match_at issue_lookahead i []).
  - destruct (match_at issue_lookahead i (c :: t)); [done|].
    by rewrite IH.
Qed.

Lemma color_pattern_spec s :
  re_match color_pattern s = true <->
  exists h,
    length h = 6 /\ forallb hex_digit h = true /\
    (s = ch "#" :: h \/ s = ch "#" :: h ++ nl).
Proof.
  unfold re_match, match_at, color_pattern. cbn [times exec Nat.eqb].
  rewrite bool_decide_eq_true. split.
  - intros H.
    destruct s as [|c0 s]; [by destruct H|].
    destruct (c0 =? ch "#")%N eqn:H0; [|by destruct H].
    apply N.eqb_eq in H0 as ->.
    destruct s as [|h1 s]; [by destruct H|].
    destruct (hex_digit h1) eqn:H1; [|by destruct H].
    destruct s as [|h2 s]; [by destruct H|].
    destruct (hex_digit h2) eqn:H2; [|by destruct H].
    destruct s as [|h3 s]; [by destruct H|].
    destruct (hex_digit h3) eqn:H3; [|by destruct H].
    destruct s as [|h4 s]; [by destruct H|].
    destruct (hex_digit h4) eqn:H4; [|by destruct H].
    destruct s as [|h5 s]; [by destruct H|].
    destruct (hex_digit h5) eqn:H5; [|by destruct H].
    destruct s as [|h6 s]; [by destruct H|].
    destruct (hex_digit h6) eqn:H6; [|by destruct H].
    destruct (at_eol s) eqn:He; [|by destruct H].
    exists [h1; h2; h3; h4; h5; h6]. split; [done|]. split.
    + cbn [forallb]. by rewrite H1, H2, H3, H4, H5, H6.
    + destruct s as [|x9 [|? ?]]; [by left| |done].
      right. cbn in He. apply N.eqb_eq in He as ->. done.
  - intros (h & Hlen & Hhex & Hs).
    do 7 (destruct h as [|? h]; try discriminate).
    cbn [forallb] in Hhex.
    repeat match type of Hhex with
           | _ && _ = true => apply andb_true_iff in Hhex as [? Hhex]
           end.
    destruct Hs as [-> | ->]; cbn;
      repeat match goal with H : hex_digit _ = true |- _ => rewrite H; clear H end;
      eauto.
Qed.

(** ** Tokens by position *)

Lemma token_at_snoc pre c t :
  token_at (pre ++ c :: t) (length pre)
  = if (c =? ch "#")%N && bounded_by pre
    then token is_blank is_nil t else None.
Proof.
  unfold token_at, str, char in *.
  rewrite (list_lookup_middle pre t c (length pre)) by done.
  replace (drop (S (length pre)) (pre ++ c :: t)) with t.
  2: { rewrite (cons_middle c pre t), app_assoc, drop_app_length'; [done|].
       rewrite length_app. cbn. lia. }
  match goal with
  | |- context [orb ?a ?b] => assert (Hb : orb a b = bounded_by pre)
  end; [|by rewrite Hb].
  unfold bounded_by. destruct pre as [|p pre _] using rev_ind; [done|].
  rewrite last_snoc, length_app. cbn [length].
  replace (length pre + 1 - 1) with (length pre) by lia.
  replace (Nat.eqb (length pre + 1) 0) with false
    by (symmetry; apply Nat.eqb_neq; lia).
  rewrite <- app_assoc. cbn [app orb].
  rewrite (list_lookup_middle pre (c :: t) p (length pre)) by done.
  unfold is_blank.
  destruct (p =? ch " ")%N eqn:Hp.
  - apply N.eqb_eq in Hp as ->. by rewrite bool_decide_eq_true_2.
  - apply N.eqb_neq in Hp. rewrite bool_decide_eq_false_2; [done|].
    congruence.
Qed.

Lemma tokens_from_positions pre s :
  tokens_from is_blank is_nil (bounded_by pre) s
  = omap (token_at (pre ++ s)) (seq (length pre) (length s)).
Proof.
  revert pre. induction s as [|c t IH]; intros pre; [done|].
  cbn [tokens_from length seq omap list_omap]. rewrite token_at_snoc.
  specialize (IH (pre ++ [c])).
  rewrite <- app_assoc, length_app in IH. cbn [app length] in IH.
  replace (length pre + 1) with (S (length pre)) in IH by lia.
  rewrite <- IH.
  assert (Hb : bounded_by (pre ++ [c]) = is_blank c)
    by (unfold bounded_by; by rewrite last_snoc).
  rewrite Hb.
  destruct ((c =? ch "#")%N && bounded_by pre); [|done].
  by destruct (token is_blank is_nil t).
Qed.

(** The references of a text are the tokens at its positions, in the
    order of the positions. *)
Lemma references_positions s :
  references is_blank is_nil s = omap (token_at s) (seq 0 (length s)).
Proof. apply (tokens_from_positions [] s). Qed.

Lemma leading_digits_app ds r :
  forallb digit ds = true ->
  match r with c :: _ => digit c = false | [] => True end ->
  leading_digits (ds ++ r) = (ds, r).
Proof.
  intros Hd Hr. induction ds as [|d ds IH]; cbn [app].
  - destruct r as [|c r]; [done|]. cbn [leading_digits]. by rewrite Hr.
  - cbn [forallb] in Hd. apply andb_true_iff in Hd as [Hd1 Hd2].
    cbn [leading_digits]. rewrite Hd1, (IH Hd2). done.
Qed.

(** A token, said without the scan: digits, one at least, then at most
    one of the letters, then the end of the text or a space. *)
Lemma token_shape s ds sel :
  token is_blank is_nil s = Some (ds, sel) <->
  ds <> [] /\ forallb digit ds = true /\
  exists rest,
    s = ds ++ letter_text sel ++ rest /\
    (rest = [] \/ exists r, rest = ch " " :: r).
Proof.
  split.
  - unfold token. destruct (leading_digits s) as [ds0 r] eqn:Hds.
    apply leading_digits_spec in Hds as (-> & Hall & _).
    destruct ds0 as [|d ds']; [done|].
    destruct (is_nil r || space_next is_blank r) eqn:Hb.
    + intros [= <- <-]. split_and!; [done..|]. exists r. split; [done|].
      destruct r as [|c r]; [by left|right].
      cbn in Hb. apply N.eqb_eq in Hb as ->. eauto.
    + destruct r as [|c r']; [done|].
      destruct (letter_selector c) as [sel0|] eqn:Hsel; [|done].
      destruct (is_nil r' || space_next is_blank r') eqn:Hb'; [|done].
      intros [= <- <-]. split_and!; [done..|]. exists r'.
      rewrite (letter_text_selector _ _ Hsel). split; [done|].
      destruct r' as [|c' r']; [by left|right].
      cbn in Hb'. apply N.eqb_eq in Hb' as ->. eauto.
  - intros (Hne & Hd & rest & -> & Hrest). unfold token.
    rewrite leading_digits_app; [|done|].
    2: { destruct sel; [|done..]. cbn [letter_text app].
         destruct Hrest as [-> | [r ->]]; done. }
    destruct ds as [|d ds']; [done|].
    destruct sel; cbn [letter_text app];
      destruct Hrest as [-> | [r ->]]; reflexivity.
Qed.

(** ** The references of a message *)

(** C7, as the code has it: in a text that does not end with a line
    feed, the extraction finds exactly the tokens made of [#], one or
    more decimal digits and at most one of the letters e, u, l, that
    stand between the start of the text or a space character and the
    end of the text or a space character; it yields them in the order
    of the positions of their [#], repeated ones included, each with
    its digits and the repository of its letter; and the test of
    on_message lets the lookups start exactly when there is such a
    token. *)
Theorem extraction_finds_references (text : str) :
  last text <> Some 10%N ->
  extracted text
  = map (fun r => (r.1, repository r.2)) (references is_blank is_nil text) /\
  references is_blank is_nil text
  = omap (token_at text) (seq 0 (length text)) /\
  re_search issue_pattern text
  = match references is_blank is_nil text with
    | [] => false
    | _ :: _ => true
    end.
Proof.
  intros Hlast.
  assert (Href : references is_blank at_eol text
                 = references is_blank is_nil text).
  { apply tokens_from_ext. intros r Hr. by apply (at_eol_is_nil text). }
  split_and!.
  - rewrite extracted_references, Href. done.
  - apply references_positions.
  - unfold re_search. rewrite search_findall.
    pose proof (extracted_references text) as H. rewrite Href in H.
    unfold extracted, findall_lookahead in H.
    destruct (findall_from issue_lookahead 0 text);
      destruct (references is_blank is_nil text); done.
Qed.

Lemma extraction_finds_references_witness :
  extracted (lit "#1 #2e")
  = map (fun r => (r.1, repository r.2))
        (references is_blank is_nil (lit "#1 #2e")) /\
  references is_blank is_nil (lit "#1 #2e")
  = omap (token_at (lit "#1 #2e")) (seq 0 (length (lit "#1 #2e"))) /\
  re_search issue_pattern (lit "#1 #2e")
  = match references is_blank is_nil (lit "#1 #2e") with
    | [] => false
    | _ :: _ => true
    end.
Proof.
  apply (extraction_finds_references (lit "#1 #2e")).
  vm_compute. discriminate.
Defined.

(** C7 fails as stated: in "#1", line feed, "#2" both tokens stand
    between white space and the ends of the text, and the extraction
    finds neither. *)
Lemma line_feed_is_no_boundary :
  references is_whitespace is_nil (lit "#1" ++ nl ++ lit "#2")
  = [(lit "1", sel_default); (lit "2", sel_default)] /\
  extracted (lit "#1" ++ nl ++ lit "#2") = [] /\
  re_search issue_pattern (lit "#1" ++ nl ++ lit "#2") = false.
Proof. vm_compute. done. Qed.

(** Adjacent tokens share their space; a tab bounds nothing; a token
    may be repeated. *)
Example extracted_shared_space :
  extracted (lit "see #12 #12 #7u #8x #9l")
  = [(lit "12", lit "omega-numworks/omega");
     (lit "12", lit "omega-numworks/omega");
     (lit "7", lit "UpsilonNumworks/Upsilon");
     (lit "9", lit "Lambda-Numworks/Lambda")].
Proof. vm_compute. reflexivity. Qed.

(** ** The colour token *)

Lemma color_pattern_code s :
  re_match color_pattern s = true <->
  is_color_code s \/ exists s', s = s' ++ nl /\ is_color_code s'.
Proof.
  rewrite color_pattern_spec. unfold is_color_code. split.
  - intros (h & Hlen & Hhex & [-> | ->]).
    + left. eauto.
    + right. exists (ch "#" :: h). split; [done|]. eauto.
  - intros [(h & -> & Hlen & Hhex) | (s' & -> & h & -> & Hlen & Hhex)];
      exists h; eauto.
Qed.

(** C8: the colour test on the three texts of the claim, and on the
    first of them followed by a line feed: that text is not [#] and six
    hexadecimal digits, and the test of on_message accepts it. *)
Theorem color_check_accepts_line_feed :
  re_match color_pattern (lit "#a1b2c3") = true /\
  re_match color_pattern (lit "#a1b2c3x") = false /\
  re_match color_pattern (lit "foo #a1b2c3") = false /\
  re_match color_pattern (lit "#a1b2c3" ++ nl) = true /\
  ~ is_color_code (lit "#a1b2c3" ++ nl).
Proof.
  split_and!; [vm_compute; reflexivity..|].
  intros (h & Heq & Hlen & _). apply (f_equal length) in Heq.
  cbn [length] in Heq. rewrite Hlen in Heq. vm_compute in Heq. lia.
Qed.

(** ** Handlers *)

Lemma deletions_app id l1 l2 :
  deletions id (l1 ++ l2) = deletions id l1 + deletions id l2.
Proof.
  induction l1 as [|a l1 IH]; [done|]. destruct a; cbn; rewrite ?IH; lia.
Qed.

Lemma perform_run env a w :
  perform env a w = (platform env (log w ++ [a]), logged w [a]).
Proof. reflexivity. Qed.

Lemma fetch_user_run env uid w :
  fetch_user env uid w
  = (match platform env (log w ++ [FetchUser uid]) with
     | Ok _ => Ok (user_is_bot env (log w ++ [FetchUser uid]))
     | Raise e => Raise e
     end, logged w [FetchUser uid]).
Proof.
  unfold fetch_user, bind. rewrite perform_run.
  by destruct (platform env _).
Qed.

Lemma live_delete w id m l :
  live {| issue_embeds := delete m (issue_embeds w); log := l |} id
  = if bool_decide (m = id) then 0 else live w id.
Proof.
  unfold live. cbn. case_bool_decide as H.
  - subst. by rewrite lookup_delete_eq.
  - by rewrite lookup_delete_ne.
Qed.

Lemma live_logged w l id : live (logged w l) id = live w id.
Proof. reflexivity. Qed.

Lemma live_le w id : live w id <= 1.
Proof. unfold live. destruct (_ !! _); lia. Qed.

(** What one reaction does. *)
Lemma on_raw_reaction_add_run env r w :
  let h1 := log w ++ [FetchUser (user_id r)] in
  let id := message_id r in
  on_raw_reaction_add env r w =
  match platform env h1 with
  | Raise e => (Raise e, logged w [FetchUser (user_id r)])
  | Ok _ =>
      if user_is_bot env h1 then (Ok tt, logged w [FetchUser (user_id r)])
      else if bool_decide (emoji_name r = trash) then
        match issue_embeds w !! id with
        | None => (Ok tt, logged w [FetchUser (user_id r)])
        | Some v =>
            let w1 := {| issue_embeds := delete id (issue_embeds w);
                         log := h1 |} in
            if negb (v =? 0)%Z then
              match platform env (h1 ++ [FetchMessage (channel_id r) id]) with
              | Raise e => (Raise e, logged w1 [FetchMessage (channel_id r) id])
              | Ok _ =>
                  (match platform env
                           (h1 ++ [FetchMessage (channel_id r) id;
                                   DeleteMessage id]) with
                   | Ok _ => Ok tt
                   | Raise e => Raise e
                   end,
                   logged w1 [FetchMessage (channel_id r) id; DeleteMessage id])
              end
            else (Ok tt, w1)
        end
      else (Ok tt, logged w [FetchUser (user_id r)])
  end.
Proof.
  intros h1 id. subst h1 id. unfold on_raw_reaction_add.
  unfold bind at 1. rewrite fetch_user_run.
  destruct (platform env (log w ++ [FetchUser (user_id r)])) as [z|e]; [|done].
  destruct (user_is_bot env _); [done|].
  destruct (bool_decide (emoji_name r = trash)); [|done].
  unfold bind at 1. unfold dict_pop_default. cbn [issue_embeds logged log].
  destruct (issue_embeds w !! message_id r) as [v|]; [|done].
  cbn [truthy]. destruct (negb (v =? 0)%Z); [|done].
  unfold bind at 1. rewrite perform_run. cbn [log].
  destruct (platform env (_ ++ [FetchMessage _ _])) as [z'|e]; [|done].
  unfold bind. rewrite perform_run. cbn [logged log issue_embeds].
  rewrite <- !app_assoc, logged_logged. cbn [app].
  destruct (platform env _); done.
Qed.

Lemma cleanup_run env id w :
  cleanup env id w =
  match platform env (log w ++ [RemoveReaction id trash]) with
  | Raise e => (Raise e, logged w [RemoveReaction id trash])
  | Ok _ =>
      match issue_embeds w !! id with
      | Some _ =>
          (Ok tt, {| issue_embeds := delete id (issue_embeds w);
                     log := log w ++ [RemoveReaction id trash] |})
      | None => (Raise KeyError, logged w [RemoveReaction id trash])
      end
  end.
Proof.
  unfold cleanup. unfold bind at 1. rewrite perform_run.
  destruct (platform env _); [|done].
  unfold bind, dict_pop. cbn [logged issue_embeds log].
  by destruct (issue_embeds w !! id).
Qed.

Lemma register_run id w :
  register id w
  = (Ok tt, {| issue_embeds := <[id := 1%Z]> (issue_embeds w); log := log w |}).
Proof. reflexivity. Qed.

(** The deletions of a message and its entry, taken together, grow by
    a registration of the message only. *)
Lemma handle_potential env ev w id :
  deletions id (log (handle env ev w).2) + live (handle env ev w).2 id
  <= deletions id (log w) + live w id + registrations id [ev].
Proof.
  destruct ev as [m|m|r]; cbn [handle registrations].
  - rewrite register_run. cbn [snd log]. unfold live. cbn [issue_embeds].
    case_bool_decide as H.
    + subst. rewrite lookup_insert_eq. destruct (_ !! _); lia.
    + rewrite lookup_insert_ne by done. lia.
  - rewrite cleanup_run.
    destruct (platform env _); [destruct (issue_embeds w !! m)|]; cbn [snd];
      rewrite ?live_delete, ?live_logged; cbn [log logged];
      rewrite ?deletions_app; cbn [deletions];
      try case_bool_decide; lia.
  - rewrite on_raw_reaction_add_run. cbv zeta.
    destruct (platform env _); [|cbn [snd logged log];
      rewrite ?deletions_app, ?live_logged; cbn [deletions]; unfold live; cbn; lia].
    destruct (user_is_bot env _); [cbn [snd logged log];
      rewrite ?deletions_app; cbn [deletions]; unfold live; cbn; lia|].
    destruct (bool_decide (emoji_name r = trash)); [|cbn [snd logged log];
      rewrite ?deletions_app; cbn [deletions]; unfold live; cbn; lia].
    destruct (issue_embeds w !! message_id r) as [v|] eqn:Hv;
      [|cbn [snd logged log];
        rewrite ?deletions_app; cbn [deletions]; unfold live; cbn; lia].
    assert (Hlive : live w (message_id r) = 1) by (unfold live; by rewrite Hv).
    destruct (negb (v =? 0)%Z);
      [destruct (platform env _)|];
      cbn [snd]; rewrite ?live_logged, ?live_delete; unfold logged;
      cbn [log issue_embeds];
      rewrite <- ?app_assoc, ?deletions_app;
      cbn [deletions app]; repeat case_bool_decide; subst; try done; lia.
Qed.

Lemma run_potential env evs w id :
  deletions id (log (run env evs w)) + live (run env evs w) id
  <= deletions id (log w) + live w id + registrations id evs.
Proof.
  revert w. induction evs as [|ev evs IH]; intros w; [cbn; lia|].
  cbn [run fold_left]. fold (run env evs (handle env ev w).2).
  specialize (IH (handle env ev w).2).
  pose proof (handle_potential env ev w id) as H.
  assert (registrations id (ev :: evs)
          = registrations id [ev] + registrations id evs)
    by (destruct ev; cbn; lia).
  lia.
Qed.

(** ** Handlers that look up no issue *)

Lemma quiet_same {A} (m : M A) :
  (forall w, log (m w).2 = log w) -> quiet m.
Proof. intros H w. exists []. by rewrite app_nil_r. Qed.

Lemma quiet_ret {A} (a : A) : quiet (ret a).
Proof. by apply quiet_same. Qed.

Lemma quiet_lift {A} (r : outcome A) : quiet (lift r).
Proof. by apply quiet_same. Qed.

Lemma quiet_history : quiet history.
Proof. by apply quiet_same. Qed.

Lemma quiet_record a : no_lookup a = true -> quiet (record a).
Proof. intros H w. exists [a]. cbn. by rewrite H. Qed.

Lemma quiet_bind {A B} (m : M A) (k : A -> M B) :
  quiet m -> (forall a, quiet (k a)) -> quiet (bind m k).
Proof.
  intros Hm Hk w. unfold bind. destruct (Hm w) as (l1 & E1 & Q1).
  destruct (m w) as [[a|e] w1]; cbn [snd] in *.
  - destruct (Hk a w1) as (l2 & E2 & Q2). exists (l1 ++ l2).
    rewrite E2, E1, app_assoc, forallb_app, Q1, Q2. done.
  - eauto.
Qed.

Create HintDb quiet.

#[local] Hint Resolve quiet_ret quiet_lift quiet_history quiet_bind
  quiet_record : quiet.
#[local] Hint Extern 1 (no_lookup _ = true) => reflexivity : quiet.

(** One step of a proof that a handler is quiet: the two sides of a
    [bind], then whichever branch the handler takes. *)
Ltac quiet_cases :=
  repeat match goal with
         | |- quiet (if ?b then _ else _) => destruct b
         | |- quiet (match ?x with _ => _ end) => destruct x
         | |- quiet (bind _ _) => apply quiet_bind; [|intros ?]
         end;
  eauto with quiet.

Lemma quiet_perform env a : no_lookup a = true -> quiet (perform env a).
Proof. intros H. unfold perform. quiet_cases. Qed.

#[local] Hint Resolve quiet_perform : quiet.

Lemma quiet_fetch_user env uid : quiet (fetch_user env uid).
Proof. unfold fetch_user. quiet_cases. Qed.

Lemma quiet_get_commits env url : quiet (get_commits env url).
Proof. unfold get_commits. quiet_cases. Qed.

Lemma quiet_get_color env url : quiet (get_color env url).
Proof. unfold get_color. quiet_cases. Qed.

Lemma quiet_dict_pop id : quiet (dict_pop id).
Proof.
  apply quiet_same. intros w. unfold dict_pop.
  by destruct (issue_embeds w !! id).
Qed.

Lemma quiet_dict_pop_default id : quiet (dict_pop_default id).
Proof.
  apply quiet_same. intros w. unfold dict_pop_default.
  by destruct (issue_embeds w !! id).
Qed.

Lemma quiet_register id : quiet (register id).
Proof. by apply quiet_same. Qed.

#[local] Hint Resolve quiet_fetch_user quiet_get_commits quiet_get_color
  quiet_dict_pop quiet_dict_pop_default quiet_register : quiet.

Lemma quiet_cleanup env id : quiet (cleanup env id).
Proof. unfold cleanup. quiet_cases. Qed.

Lemma quiet_on_raw_reaction_add env r : quiet (on_raw_reaction_add env r).
Proof. unfold on_raw_reaction_add. quiet_cases. Qed.

Lemma quiet_deliver env rs : quiet (deliver env rs).
Proof.
  intros w. unfold deliver. cbn [snd]. revert w.
  induction rs as [|r rs IH]; intros w.
  - exists []. by rewrite app_nil_r.
  - cbn [fold_left].
    destruct (quiet_on_raw_reaction_add env r w) as (l1 & E1 & Q1).
    destruct (IH (on_raw_reaction_add env r w).2) as (l2 & E2 & Q2).
    exists (l1 ++ l2). rewrite E2, E1, app_assoc, forallb_app, Q1, Q2. done.
Qed.

#[local] Hint Resolve quiet_cleanup quiet_deliver : quiet.

Lemma quiet_sleep env n : quiet (sleep env n).
Proof. unfold sleep. quiet_cases. Qed.

Lemma quiet_make_embed env data : quiet (make_embed env data).
Proof. unfold make_embed. quiet_cases. Qed.

Lemma quiet_make_color_embed env hex : quiet (make_color_embed env hex).
Proof. unfold make_color_embed. quiet_cases. Qed.

#[local] Hint Resolve quiet_sleep quiet_make_embed quiet_make_color_embed
  : quiet.

Lemma quiet_show_issue env i : quiet (show_issue env i).
Proof. unfold show_issue. quiet_cases. Qed.

(** ** A failed lookup *)

Lemma quiet_split lb l l1 u l2 :
  forallb no_lookup lb = true ->
  l1 ++ GetIssue u :: l2 = lb ++ l ->
  exists l1', l1 = lb ++ l1' /\ l = l1' ++ GetIssue u :: l2.
Proof.
  revert l1. induction lb as [|a lb IH]; intros l1 Hq E.
  - exists l1. done.
  - cbn [forallb] in Hq. apply andb_true_iff in Hq as [Ha Hq].
    destruct l1 as [|a' l1]; cbn [app] in E.
    + injection E as <- _. done.
    + injection E as -> E. destruct (IH l1 Hq E) as (l1' & -> & ->).
      exists l1'. done.
Qed.

Lemma stops_quiet env h lb :
  forallb no_lookup lb = true -> stops_at_failure env h lb.
Proof.
  intros Hq l1 u l2 E. rewrite <- (app_nil_r lb) in E. symmetry in E.
  destruct (quiet_split _ _ _ _ _ Hq E) as (l1' & _ & E').
  by destruct l1'.
Qed.

Lemma stops_after_quiet env h lb l :
  forallb no_lookup lb = true ->
  stops_at_failure env (h ++ lb) l ->
  stops_at_failure env h (lb ++ l).
Proof.
  intros Hq H l1 u l2 E. symmetry in E.
  destruct (quiet_split _ _ _ _ _ Hq E) as (l1' & -> & ->).
  cbv zeta. rewrite <- !app_assoc. rewrite (app_assoc h lb).
  by apply H.
Qed.

Lemma for_matches_stops env consumer matches w :
  (forall i, quiet (consumer i)) ->
  exists l,
    log (for_matches env matches consumer w).2 = log w ++ l /\
    stops_at_failure env (log w) l.
Proof.
  intros Hq. revert w. induction matches as [|i0 matches IH]; intros w.
  - exists []. split; [by rewrite app_nil_r|]. by apply stops_quiet.
  - cbn [for_matches]. unfold bind at 1. unfold get_issue.
    cbv beta iota zeta delta [bind record history ret]. cbn [log issue_embeds].
    set (url := issue_url (repo_of i0) (issue_of i0)).
    set (w1 := {| issue_embeds := issue_embeds w;
                  log := log w ++ [GetIssue url] |}).
    destruct (negb (status (issue_response env (log w ++ [GetIssue url]))
                    =? 200)%N) eqn:Hs.
    + pose proof (perform_run env
                    (Send (Some (error_notice
                       (status (issue_response env (log w ++ [GetIssue url])))))
                       None) w1) as Hp.
      change (bind ?m ?k w1) with
        (match m w1 with (Ok a, w') => k a w' | (Raise e, w') => (Raise e, w') end).
      rewrite Hp.
      eexists [GetIssue url; Send _ None]. split.
      * destruct (platform env _); cbn; by rewrite <- app_assoc.
      * intros l1 u l2 E. destruct l1 as [|a [|a' l1]].
        -- injection E as <- <-. done.
        -- by injection E.
        -- injection E as _ _ E. by destruct l1.
    + apply negb_false_iff, N.eqb_eq in Hs.
      destruct (Hq (json (issue_response env (log w ++ [GetIssue url]))) w1)
        as (lb & Eb & Qb).
      destruct (consumer _ w1) as [[[]|e] w2] eqn:Hc; cbn [snd] in Eb.
      * destruct (IH w2) as (l & El & Sl).
        exists (GetIssue url :: lb ++ l). split.
        -- rewrite El, Eb. subst w1. cbn [log]. by rewrite <- !app_assoc.
        -- intros l1 u l2 E. destruct l1 as [|a l1].
           ++ injection E as <- _. cbv zeta. cbn [app]. congruence.
           ++ injection E as <- E. cbv zeta.
              rewrite Eb in Sl. subst w1. cbn [log] in Sl.
              pose proof (stops_after_quiet env _ lb l Qb Sl l1 u l2) as H.
              cbv zeta in H. rewrite <- !app_assoc in H. cbn [app] in H.
              by apply H.
      * exists (GetIssue url :: lb). split.
        -- cbn [snd]. rewrite Eb. subst w1. cbn [log]. by rewrite <- !app_assoc.
        -- intros l1 u l2 E. destruct l1 as [|a l1].
           ++ injection E as <- _. cbv zeta. cbn [app]. congruence.
           ++ injection E as <- E. cbv zeta.
              pose proof (stops_quiet env (log w ++ [GetIssue url]) lb Qb
                            l1 u l2 E) as H.
              cbv zeta in H. rewrite <- !app_assoc in H. cbn [app] in H.
              by apply H.
Qed.

Lemma on_message_stops env message w :
  exists l,
    log (on_message env message w).2 = log w ++ l /\
    stops_at_failure env (log w) l.
Proof.
  unfold on_message, user_only.
  destruct (human_authored message).
  2: { exists []. split; [by rewrite app_nil_r|]. by apply stops_quiet. }
  unfold on_message_body.
  set (colour :=
         if re_match color_pattern (content message)
         then color_embed <- make_color_embed env
                               (lstrip (lit "#") (content message)) ;;
              perform env (Send None color_embed) ;;; ret ()
         else ret ()).
  assert (Hq : quiet colour) by (subst colour; quiet_cases).
  unfold bind at 1. destruct (Hq w) as (lc & Ec & Qc).
  destruct (colour w) as [[[]|e] w1]; cbn [snd] in Ec.
  - destruct (re_search issue_pattern (content message)).
    + unfold get_github_issues.
      destruct (for_matches_stops env (show_issue env)
                  (findall_lookahead issue_lookahead (content message)) w1
                  (quiet_show_issue env)) as (l & El & Sl).
      exists (lc ++ l). split.
      * by rewrite El, Ec, app_assoc.
      * apply stops_after_quiet; [done|]. by rewrite <- Ec.
    + exists lc. split; [done|]. by apply stops_quiet.
  - exists lc. split; [done|]. by apply stops_quiet.
Qed.

Lemma error_notice_status s :
  exists pre post, error_notice s = pre ++ str_of_int s ++ post.
Proof.
  exists (lit "Erreur lors de la requ" ++ [234%N] ++ lit "te ("), (lit ")").
  unfold error_notice. by rewrite <- !app_assoc.
Qed.

(** C5: whenever on_message looks up an issue and the answer is not
    a 200, all it does afterwards is send one notice, the text of
    which contains that status: no embed for that reference, and no
    lookup for any reference after it in the message. *)
Theorem failed_lookup_stops_batch env (message : Message) (w : World)
    (l1 : list Action) (u : str) (l2 : list Action) :
  log (on_message env message w).2 = log w ++ l1 ++ GetIssue u :: l2 ->
  let failed := status (issue_response env (log w ++ l1 ++ [GetIssue u])) in
  failed <> 200%N ->
  l2 = [Send (Some (error_notice failed)) None] /\
  exists pre post, error_notice failed = pre ++ str_of_int failed ++ post.
Proof.
  intros E failed Hf. split; [|apply error_notice_status].
  destruct (on_message_stops env message w) as (l & El & Sl).
  rewrite El in E. apply app_inv_head in E. by apply (Sl l1 u l2).
Qed.

Lemma failed_lookup_stops_batch_witness :
  drop 6 (log (on_message (second_fails_env open_issue)
                 (human (lit "#1 #2 #3")) start).2)
  = [Send (Some (error_notice 404)) None].
Proof.
  refine (proj1 (failed_lookup_stops_batch (second_fails_env open_issue)
            (human (lit "#1 #2 #3")) start
            (take 5 (log (on_message (second_fails_env open_issue)
                            (human (lit "#1 #2 #3")) start).2))
            (issue_url (lit "omega-numworks/omega") (lit "2"))
            (drop 6 (log (on_message (second_fails_env open_issue)
                            (human (lit "#1 #2 #3")) start).2))
            _ _)).
  - vm_compute. reflexivity.
  - vm_compute. discriminate.
Defined.

(** C9: on a colour token whose lookup is answered with a status other
    than 200, on_message sends the notice of that status and then,
    once the platform has taken the notice, performs a send of its own
    with neither text nor embed ([Send None None]), which the claim
    excludes. *)
Theorem failed_color_lookup_still_sends env (text : str) (w : World)
    (z : Z) :
  re_match color_pattern text = true ->
  let url := lit "https://www.thecolorapi.com/id?hex="
             ++ lstrip (lit "#") text in
  let failed := status (color_response env (log w ++ [GetColor url])) in
  failed <> 200%N ->
  platform env (log w ++ [GetColor url;
                          Send (Some (error_notice failed)) None]) = Ok z ->
  exists l,
    log (on_message env (human text) w).2
    = log w ++ [GetColor url; Send (Some (error_notice failed)) None;
                Send None None] ++ l.
Proof.
  intros Hm url failed Hf Hp.
  unfold on_message, user_only, human. cbn [human_authored content].
  unfold on_message_body. cbn [content]. rewrite Hm.
  unfold bind at 1. unfold bind at 1.
  unfold make_color_embed. unfold bind at 1. unfold get_color.
  cbv beta iota zeta delta [bind record history ret]. cbn [log issue_embeds].
  fold url. fold failed.
  apply N.eqb_neq in Hf. rewrite Hf.
  rewrite perform_run. cbn [log]. rewrite <- app_assoc. cbn [app].
  rewrite Hp. rewrite perform_run. unfold logged. cbn [log issue_embeds].
  rewrite <- !app_assoc. cbn [app].
  destruct (platform env
              (log w ++ [GetColor url; Send (Some (error_notice failed)) None;
                         Send None None])).
  - cbn [content]. destruct (re_search issue_pattern text).
    + unfold get_github_issues.
      match goal with
      | |- context [for_matches env ?ms ?c ?w0] =>
          destruct (for_matches_stops env c ms w0 (quiet_show_issue env))
            as (l & El & _)
      end.
      exists l. rewrite El. cbn [log]. by rewrite <- !app_assoc.
    + exists []. done.
  - exists []. done.
Qed.

Lemma failed_color_lookup_still_sends_witness :
  exists l,
    log (on_message (simple_env 200 500 open_issue [])
           (human (lit "#a1b2c3")) start).2
    = log start
      ++ [GetColor (lit "https://www.thecolorapi.com/id?hex="
                    ++ lstrip (lit "#") (lit "#a1b2c3"));
          Send (Some (error_notice 500)) None;
          Send None None] ++ l.
Proof.
  refine (failed_color_lookup_still_sends (simple_env 200 500 open_issue [])
            (lit "#a1b2c3") start 2 _ _ _).
  - vm_compute. reflexivity.
  - vm_compute. discriminate.
  - vm_compute. reflexivity.
Defined.

(** The whole run on that message: the lookup, the notice and the
    empty send. *)
Example failed_color_lookup_log :
  log (on_message (simple_env 200 500 open_issue [])
         (human (lit "#a1b2c3")) start).2
  = [GetColor (lit "https://www.thecolorapi.com/id?hex=a1b2c3");
     Send (Some (error_notice 500)) None;
     Send None None].
Proof. vm_compute. reflexivity. Qed.

(** ** The registry *)

Lemma handle_all_ones env ev w : all_ones w -> all_ones (handle env ev w).2.
Proof.
  intros H. destruct ev as [m|m|r]; cbn [handle].
  - rewrite register_run. intros id v. cbn.
    destruct (decide (m = id)) as [->|Hne].
    + rewrite lookup_insert_eq. congruence.
    + rewrite lookup_insert_ne by done. apply H.
  - rewrite cleanup_run.
    destruct (platform env _); [destruct (issue_embeds w !! m)|]; try done.
    intros id v. cbn. intros Hl. apply lookup_delete_Some in Hl as [_ Hl].
    by apply (H id).
  - rewrite on_raw_reaction_add_run. cbv zeta.
    assert (Hd : forall l, all_ones
               {| issue_embeds := delete (message_id r) (issue_embeds w);
                  log := l |}).
    { intros l id v. cbn. intros Hl.
      apply lookup_delete_Some in Hl as [_ Hl]. by apply (H id). }
    destruct (platform env _); [|done].
    destruct (user_is_bot env _); [done|].
    destruct (bool_decide _); [|done].
    destruct (issue_embeds w !! message_id r); [|done].
    destruct (negb _); [|apply Hd].
    destruct (platform env _); apply Hd.
Qed.

Lemma run_all_ones env evs w : all_ones w -> all_ones (run env evs w).
Proof.
  revert w. induction evs as [|ev evs IH]; intros w H; [done|].
  cbn [run fold_left]. apply IH. by apply handle_all_ones.
Qed.

Lemma start_all_ones : all_ones start.
Proof. intros id v. cbn. by rewrite lookup_empty. Qed.

(** C6: in a run of the registry steps that starts from the empty
    registry and registers [id] at most once, the message [id] is
    deleted at most once.  In the world [w] such a run ends in: a
    wastebasket reaction by a user who is no bot, on a live entry,
    removes the entry and deletes the message (the platform answering
    the calls before the deletion); a reaction on [id] when there is no
    entry changes nothing but the history of the call that fetches the
    user; and the cleanup after the 60 seconds deletes no message. *)
Theorem at_most_one_deletion env (evs : list Event) (id : Z) :
  registrations id evs <= 1 ->
  let w := run env evs start in
  deletions id (log w) <= 1 /\
  (forall r z z',
      emoji_name r = trash -> message_id r = id ->
      is_Some (issue_embeds w !! id) ->
      platform env (log w ++ [FetchUser (user_id r)]) = Ok z ->
      user_is_bot env (log w ++ [FetchUser (user_id r)]) = false ->
      platform env (log w ++ [FetchUser (user_id r);
                              FetchMessage (channel_id r) id]) = Ok z' ->
      (on_raw_reaction_add env r w).2
      = {| issue_embeds := delete id (issue_embeds w);
           log := log w ++ [FetchUser (user_id r);
                            FetchMessage (channel_id r) id;
                            DeleteMessage id] |}) /\
  (forall r,
      message_id r = id -> issue_embeds w !! id = None ->
      (on_raw_reaction_add env r w).2 = logged w [FetchUser (user_id r)]) /\
  (forall m, deletions id (log (cleanup env m w).2) = deletions id (log w)).
Proof.
  intros Hreg w. split_and!.
  - pose proof (run_potential env evs start id) as H. fold w in H.
    assert (Hs : live start id = 0)
      by (unfold live, start; cbn [issue_embeds]; by rewrite lookup_empty).
    rewrite Hs in H. cbn [start log deletions] in H. lia.
  - intros r z z' Hemoji <- [v Hv] Hp Hbot Hp'.
    rewrite on_raw_reaction_add_run. cbv zeta.
    rewrite Hp, Hbot, Hv, bool_decide_eq_true_2 by done.
    assert (v = 1%Z) as ->
      by (eapply (run_all_ones env evs start start_all_ones); exact Hv).
    cbn [negb Z.eqb]. rewrite <- app_assoc. cbn [app]. rewrite Hp'.
    cbn [snd]. unfold logged. cbn [log issue_embeds].
    by rewrite <- app_assoc.
  - intros r <- Hv. rewrite on_raw_reaction_add_run. cbv zeta. rewrite Hv.
    destruct (platform env _); [|done].
    destruct (user_is_bot env _); [done|]. by destruct (bool_decide _).
  - intros m. rewrite cleanup_run.
    destruct (platform env _); [destruct (issue_embeds w !! m)|];
      cbn [snd logged log]; rewrite deletions_app; cbn; lia.
Qed.

Lemma at_most_one_deletion_witness :
  deletions 7
    (log (run (simple_env 200 200 open_issue [])
            [Registered 7; Reacted (dismissal 7); Reacted (dismissal 7);
             TimedOut 7] start)) <= 1.
Proof.
  refine (proj1 (at_most_one_deletion (simple_env 200 200 open_issue [])
            [Registered 7; Reacted (dismissal 7); Reacted (dismissal 7);
             TimedOut 7] 7 _)).
  vm_compute. lia.
Defined.

Example one_deletion_log :
  log (run (simple_env 200 200 open_issue [])
         [Registered 7; Reacted (dismissal 7); Reacted (dismissal 7);
          TimedOut 7] start)
  = [FetchUser 1; FetchMessage 1 7; DeleteMessage 7; FetchUser 1;
     RemoveReaction 7 trash].
Proof. vm_compute. reflexivity. Qed.

Lemma cleanup_absent env id w :
  issue_embeds w !! id = None ->
  exists e, cleanup env id w = (Raise e, logged w [RemoveReaction id trash]).
Proof.
  intros H. rewrite cleanup_run, H. destruct (platform env _); eauto.
Qed.

(** C2: registration of message 7, its dismissal by a reaction, then the
    cleanup of on_message: the entry is gone, and the cleanup removes
    the reaction all the same and raises KeyError.  The same in the
    handler: a dismissal while on_message sleeps ends it with KeyError
    before the second reference of the message is looked up. *)
Theorem cleanup_after_dismissal_raises :
  let env := simple_env 200 200 open_issue [] in
  let w := run env [Registered 7; Reacted (dismissal 7)] start in
  issue_embeds w !! 7%Z = None /\
  cleanup env 7 w = (Raise KeyError, logged w [RemoveReaction 7 trash]) /\
  (on_message (dismissing_env open_issue) (human (lit "#1 #2")) start).1
  = Raise KeyError.
Proof. vm_compute. done. Qed.

(** ** The lines the truncation keeps *)

Lemma loop_body_delete cur d rest d' :
  loop_body cur d = Ok (rest, d') -> rest = delete (length cur / 2) cur.
Proof.
  unfold loop_body, pop. destruct (cur !! _); [|done]. by intros [= <- _].
Qed.

Ltac halves :=
  repeat match goal with
         | |- context [?m / 2] =>
             lazymatch goal with
             | _ : m = 2 * (m / 2) + m mod 2 |- _ => fail
             | _ => pose proof (Nat.div_mod_eq m 2);
                    pose proof (Nat.mod_upper_bound m 2 ltac:(lia))
             end
         | _ : context [?m / 2] |- _ =>
             lazymatch goal with
             | _ : m = 2 * (m / 2) + m mod 2 |- _ => fail
             | _ => pose proof (Nat.div_mod_eq m 2);
                    pose proof (Nat.mod_upper_bound m 2 ltac:(lia))
             end
         end.

(** Removing the middle line of a head and a tail of [F] leaves a head
    and a tail of [F]. *)
Lemma delete_middle_block (F : list str) a k :
  a + k <= length F ->
  let cur := take a F ++ drop (a + k) F in
  a = (length cur + 1) / 2 ->
  cur <> [] ->
  let a' := length cur / 2 in
  delete (length cur / 2) cur = take a' F ++ drop (a' + S k) F /\
  a' + S k <= length F /\
  a' = (length (delete (length cur / 2) cur) + 1) / 2.
Proof.
  intros Hle cur Ha Hne a'.
  assert (Hlen : length cur = length F - k).
  { subst cur. rewrite length_app, length_take, length_drop. lia. }
  assert (Hm : 0 < length cur) by (destruct cur; [done|cbn; lia]).
  assert (Hdel : length (delete (length cur / 2) cur) = length cur - 1).
  { apply length_delete. apply lookup_lt_is_Some_2.
    apply Nat.div_lt; lia. }
  rewrite Hdel.
  assert (Hcases : a' = a \/ S a' = a) by (subst a'; halves; lia).
  split_and!; [|subst a'; halves; lia..].
  fold a'. subst cur. rewrite delete_take_drop.
  destruct Hcases as [E|E].
  - (* the first line of the tail goes *)
    rewrite E.
    rewrite take_app_length' by (rewrite length_take; lia).
    f_equal.
    rewrite drop_app_ge by (rewrite length_take; lia).
    rewrite length_take, drop_drop. f_equal. lia.
  - (* the last line of the head goes *)
    rewrite take_app_le by (rewrite length_take; lia).
    rewrite take_take. replace (a' `min` a) with a' by lia.
    f_equal.
    rewrite drop_app_le by (rewrite length_take; lia).
    rewrite E. rewrite (drop_ge (take a F)) by (rewrite length_take; lia).
    cbn [app]. f_equal. lia.
Qed.

(** What the loop leaves of [F] is a head and a tail of [F]. *)
Lemma while_diff_block (F : list str) n :
  forall a k d rest d',
    n = length (take a F ++ drop (a + k) F) ->
    a + k <= length F ->
    a = (length (take a F ++ drop (a + k) F) + 1) / 2 ->
    while_diff (take a F ++ drop (a + k) F) d = Ok (rest, d') ->
    exists a' k',
      k <= k' /\ ((0 < d)%Z -> k < k') /\
      rest = take a' F ++ drop (a' + k') F /\
      a' + k' <= length F /\
      a' = (length rest + 1) / 2.
Proof.
  induction (lt_wf n) as [n _ IH]. intros a k d rest d' -> Hle Ha.
  rewrite while_diff_eq. destruct (0 <? d)%Z eqn:Hd.
  - destruct (loop_body _ d) as [[cur' d1]|e] eqn:Hb; [|done].
    pose proof (loop_body_length _ _ _ _ Hb) as Hlt.
    apply loop_body_delete in Hb.
    assert (Hne : take a F ++ drop (a + k) F <> [])
      by (intros E; rewrite E in Hlt; cbn in Hlt; lia).
    destruct (delete_middle_block F a k Hle Ha Hne) as (Hdel & Hle' & Ha').
    rewrite <- Hb in Hdel, Ha'. rewrite Hdel in Hlt, Ha' |- *.
    intros Hrun.
    destruct (IH _ Hlt _ _ _ _ _ eq_refl Hle' Ha' Hrun)
      as (a2 & k2 & Hk & _ & -> & Hle2 & Ha2).
    exists a2, k2. split_and!; [lia|lia|done..].
  - intros [= <- <-]. exists a, k. apply Z.ltb_ge in Hd.
    split_and!; [lia|lia|done..].
Qed.

Lemma commits_value_block (formatted : list str) :
  1024 < length (join nl formatted) ->
  exists rest a k,
    commits_value formatted
    = Ok (join nl (insert_at (length rest / 2 + 1) (lit "...") rest)) /\
    rest = take a formatted ++ drop (a + k) formatted /\
    a = (length rest + 1) / 2 /\
    1 <= k /\ a + k <= length formatted.
Proof.
  intros Hlong.
  assert (Hne : formatted <> []) by (intros ->; cbn in Hlong; lia).
  pose proof (join_nl_length formatted Hne) as Hj.
  set (diff := (Z.of_nat (length (join nl formatted)) - 1024 + 4)%Z).
  destruct (while_diff_ok formatted diff)
    as (rest & diff' & Hrun & _); [subst diff; lia|].
  set (a0 := (length formatted + 1) / 2).
  assert (Ha0 : a0 <= length formatted) by (subst a0; halves; lia).
  assert (E0 : take a0 formatted ++ drop (a0 + 0) formatted = formatted)
    by (rewrite Nat.add_0_r; apply take_drop).
  destruct (while_diff_block formatted (length formatted) a0 0 diff rest diff')
    as (a & k & _ & Hk & Hrest & Hle & Ha); rewrite ?E0; [done|lia|done..|].
  exists rest, a, k. split_and!; [|done..| |done].
  - unfold commits_value. apply Nat.ltb_lt in Hlong. rewrite Hlong.
    fold diff. by rewrite Hrun.
  - assert (0 < k); [apply Hk; subst diff|]; lia.
Qed.

(** X1: when the joined commit lines exceed 1024 characters, the lines
    the truncation keeps are a head and a tail of the formatted lines:
    the lines removed, one at least, are one contiguous block, and the
    head that stays is as long as the tail or one line longer. *)
Theorem truncation_keeps_head_and_tail (formatted : list str) :
  1024 < length (join nl formatted) ->
  exists kept a k,
    commits_value formatted
    = Ok (join nl (insert_at (length kept / 2 + 1) (lit "...") kept)) /\
    kept = take a formatted ++ drop (a + k) formatted /\
    a = (length kept + 1) / 2 /\
    1 <= k /\ a + k <= length formatted.
Proof. apply commits_value_block. Qed.

Lemma truncation_keeps_head_and_tail_witness :
  exists kept a k,
    commits_value ten_lines
    = Ok (join nl (insert_at (length kept / 2 + 1) (lit "...") kept)) /\
    kept = take a ten_lines ++ drop (a + k) ten_lines /\
    a = (length kept + 1) / 2 /\
    1 <= k /\ a + k <= length ten_lines.
Proof.
  apply (truncation_keeps_head_and_tail ten_lines). vm_compute. lia.
Defined.

(** X2: where the marker goes.  With an odd number of lines kept, the
    line "..." stands in the gap the removed block left; with an even
    number it stands one line below the gap, after the first line of
    the tail. *)
Theorem truncation_marker_position (formatted : list str) :
  1024 < length (join nl formatted) ->
  exists a k,
    1 <= k /\ a + k <= length formatted /\
    a = (length formatted - k + 1) / 2 /\
    commits_value formatted
    = Ok (join nl
            (if Nat.even (length formatted - k)
             then take a formatted ++ take 1 (drop (a + k) formatted)
                  ++ lit "..." :: drop (a + k + 1) formatted
             else take a formatted
                  ++ lit "..." :: drop (a + k) formatted)).
Proof.
  intros Hlong.
  destruct (commits_value_block formatted Hlong)
    as (rest & a & k & -> & Hrest & Ha & Hk & Hle).
  assert (Hlen : length rest = length formatted - k).
  { rewrite Hrest, length_app, length_take, length_drop. lia. }
  exists a, k. split_and!; [done|done|by rewrite <- Hlen|].
  do 2 f_equal. rewrite <- Hlen. unfold insert_at.
  destruct (Nat.even (length rest)) eqn:Hev.
  - apply Nat.even_spec in Hev as [q Hq].
    assert (Hi : length rest / 2 + 1 = a + 1) by (halves; lia).
    rewrite Hi, Hrest.
    rewrite take_app_ge by (rewrite length_take; lia).
    rewrite drop_app_ge by (rewrite length_take; lia).
    rewrite length_take. replace (a + 1 - a `min` length formatted) with 1 by lia.
    rewrite drop_drop. rewrite <- app_assoc. do 3 f_equal.
  - assert (Hodd : Nat.odd (length rest) = true)
      by (rewrite <- Nat.negb_even, Hev; done).
    apply Nat.odd_spec in Hodd as [q Hq].
    assert (Hi : length rest / 2 + 1 = a) by (halves; lia).
    rewrite Hi, Hrest.
    rewrite take_app_length' by (rewrite length_take; lia).
    rewrite drop_app_length' by (rewrite length_take; lia). done.
Qed.

Lemma truncation_marker_position_witness :
  exists a k,
    1 <= k /\ a + k <= length ten_wide_lines /\
    a = (length ten_wide_lines - k + 1) / 2 /\
    commits_value ten_wide_lines
    = Ok (join nl
            (if Nat.even (length ten_wide_lines - k)
             then take a ten_wide_lines ++ take 1 (drop (a + k) ten_wide_lines)
                  ++ lit "..." :: drop (a + k + 1) ten_wide_lines
             else take a ten_wide_lines
                  ++ lit "..." :: drop (a + k) ten_wide_lines)).
Proof.
  apply (truncation_marker_position ten_wide_lines). vm_compute. lia.
Defined.

(** Ten lines of 120 characters: the fifth and the sixth go, and the
    marker comes after the seventh, one line below the gap. *)
Example commits_value_ten_wide_lines :
  commits_value ten_wide_lines
  = Ok (join nl (take 4 ten_wide_lines ++ take 1 (drop 6 ten_wide_lines)
                 ++ lit "..." :: drop 7 ten_wide_lines)).
Proof. vm_compute. reflexivity. Qed.

(** ** The references of a message, once more *)

Lemma search_extracted text :
  re_search issue_pattern text
  = match extracted text with [] => false | _ :: _ => true end.
Proof.
  unfold re_search, extracted, findall_lookahead. rewrite search_findall.
  by destruct (findall_from _ _ _).
Qed.

(** X3: for every text, a final line feed included: the matches of
    get_github_issues are the references whose right-hand boundary is a
    space, the end of the text or a line feed that ends the text, and
    the test of on_message lets the lookups start exactly when there is
    such a reference. *)
Theorem gate_agrees_with_extraction (text : str) :
  extracted text
  = map (fun r => (r.1, repository r.2)) (references is_blank at_eol text) /\
  re_search issue_pattern text
  = match references is_blank at_eol text with
    | [] => false
    | _ :: _ => true
    end.
Proof.
  split; [apply extracted_references|].
  rewrite search_extracted, extracted_references.
  by destruct (references _ _ _).
Qed.

Lemma leading_digits_nl t :
  leading_digits (t ++ nl)
  = ((leading_digits t).1, (leading_digits t).2 ++ nl).
Proof.
  induction t as [|c t IH]; [done|].
  cbn [app leading_digits]. destruct (digit c); [|done].
  rewrite IH. by destruct (leading_digits t).
Qed.

Lemma at_eol_nl r : at_eol (r ++ nl) = is_nil r.
Proof. destruct r as [|c [|c' r]]; done. Qed.

Lemma space_next_nl r : space_next is_blank (r ++ nl) = space_next is_blank r.
Proof. by destruct r. Qed.

Lemma token_nl t :
  token is_blank at_eol (t ++ nl) = token is_blank is_nil t.
Proof.
  unfold token. rewrite leading_digits_nl.
  destruct (leading_digits t) as [ds r]. cbn [fst snd].
  destruct ds as [|d ds]; [done|].
  rewrite at_eol_nl, space_next_nl.
  destruct (is_nil r || space_next is_blank r); [done|].
  destruct r as [|c r]; [done|]. cbn [app].
  destruct (letter_selector c); [|done].
  by rewrite at_eol_nl, space_next_nl.
Qed.

Lemma tokens_from_nl bounded s :
  tokens_from is_blank at_eol bounded (s ++ nl)
  = tokens_from is_blank is_nil bounded s.
Proof.
  revert bounded. induction s as [|c s IH]; intros bounded.
  - cbn. by rewrite andb_false_l.
  - cbn [app tokens_from]. by rewrite token_nl, IH.
Qed.

(** X4: one line feed at the end of a text that has none changes
    nothing to the numbers and repositories get_github_issues extracts
    from it. *)
Theorem final_line_feed_ignored (text : str) :
  last text <> Some 10%N ->
  extracted (text ++ nl) = extracted text.
Proof.
  intros Hlast. rewrite !extracted_references. f_equal.
  unfold references. rewrite tokens_from_nl. symmetry.
  apply tokens_from_ext. intros r Hr. by apply (at_eol_is_nil text).
Qed.

Lemma final_line_feed_ignored_witness :
  extracted (lit "#1 #2e" ++ nl) = extracted (lit "#1 #2e").
Proof.
  apply (final_line_feed_ignored (lit "#1 #2e")). vm_compute. discriminate.
Defined.

Lemma tokens_from_no_hash space ends bounded s :
  contains (ch "#") s = false -> tokens_from space ends bounded s = [].
Proof.
  revert bounded. unfold contains.
  induction s as [|c s IH]; intros bounded; [done|].
  cbn [existsb tokens_from]. intros [Hc Hs]%orb_false_iff.
  rewrite N.eqb_sym in Hc. rewrite Hc, (IH _ Hs). done.
Qed.

(** X5: a message without [#] is neither a colour code nor a carrier
    of references: on_message returns at once, without any action and
    with the registry as it was. *)
Theorem message_without_hash_ignored env (message : Message) (w : World) :
  contains (ch "#") (content message) = false ->
  on_message env message w = (Ok tt, w).
Proof.
  intros Hno. unfold on_message, user_only.
  destruct (human_authored message); [|done].
  unfold on_message_body.
  assert (re_match color_pattern (content message) = false) as ->.
  { apply not_true_is_false. intros H.
    apply color_pattern_spec in H as (h & _ & _ & [E | E]);
      rewrite E in Hno; cbn in Hno; done. }
  assert (re_search issue_pattern (content message) = false) as ->.
  { rewrite search_extracted, extracted_references. unfold references.
    by rewrite tokens_from_no_hash. }
  reflexivity.
Qed.

Lemma message_without_hash_ignored_witness :
  on_message (simple_env 200 200 open_issue []) (human (lit "issue 12e"))
    start
  = (Ok tt, start).
Proof.
  apply (message_without_hash_ignored (simple_env 200 200 open_issue [])
           (human (lit "issue 12e")) start).
  vm_compute. reflexivity.
Defined.

Lemma digit_hex_digit c : digit c = true -> hex_digit c = true.
Proof. unfold hex_digit, digit. intros ->. by rewrite orb_true_r. Qed.

Lemma digits_no_hash h :
  forallb digit h = true -> contains (ch "#") h = false.
Proof.
  unfold contains. induction h as [|c h IH]; [done|].
  cbn [forallb existsb]. intros [Hc Hh]%andb_true_iff.
  rewrite (IH Hh), orb_false_r. apply N.eqb_neq. intros <-. done.
Qed.

(** X6: the two tests of on_message overlap: [#] followed by six
    decimal digits passes the colour test and is also extracted as an
    issue number of the default repository. *)
Theorem decimal_color_code_is_reference (h : str) :
  length h = 6 -> forallb digit h = true ->
  re_match color_pattern (ch "#" :: h) = true /\
  extracted (ch "#" :: h) = [(h, lit "omega-numworks/omega")].
Proof.
  intros Hlen Hd. split.
  - apply color_pattern_spec. exists h. split_and!; [done| |by left].
    apply forallb_forall. intros c Hc. apply digit_hex_digit.
    rewrite forallb_forall in Hd. auto.
  - rewrite extracted_references. unfold references.
    cbn [tokens_from]. change (ch "#" =? ch "#")%N with true. cbn [andb].
    rewrite (tokens_from_no_hash _ _ _ h (digits_no_hash h Hd)), app_nil_r.
    unfold token. rewrite <- (app_nil_r h) at 1.
    rewrite (leading_digits_app h []) by done.
    destruct h as [|d h]; [done|]. done.
Qed.

Lemma decimal_color_code_is_reference_witness :
  re_match color_pattern (lit "#123456") = true /\
  extracted (lit "#123456") = [(lit "123456", lit "omega-numworks/omega")].
Proof.
  exact (decimal_color_code_is_reference (lit "123456") eq_refl eq_refl).
Defined.

Lemma tokens_from_Forall (P : str * selector -> Prop) space ends bounded s :
  (forall t r, token space ends t = Some r -> P r) ->
  Forall P (tokens_from space ends bounded s).
Proof.
  intros H. revert bounded. induction s as [|c t IH]; intros bounded; cbn.
  - constructor.
  - apply Forall_app. split; [|apply IH].
    destruct (_ && _); [|constructor].
    destruct (token space ends t) as [r|] eqn:E; [|constructor].
    apply Forall_singleton. eauto.
Qed.

(** X7: every reference get_github_issues extracts has a non-empty
    number made of decimal digits only (the three strips leave no [#],
    letter or space), and one of the four repositories. *)
Theorem extracted_numbers_and_repositories (text : str) :
  Forall (fun p : str * str =>
            p.1 <> [] /\ forallb digit p.1 = true /\
            p.2 ∈ [lit "omega-numworks/omega"; lit "numworks/epsilon";
                   lit "UpsilonNumworks/Upsilon"; lit "Lambda-Numworks/Lambda"])
         (extracted text).
Proof.
  rewrite extracted_references. apply Forall_map.
  apply tokens_from_Forall. intros t [ds sel] Ht. cbn [spec_ref fst snd].
  destruct (token_inv _ _ _ _ Ht) as (r & Hr & Hne).
  apply leading_digits_spec in Hr as (_ & Hd & _).
  split_and!; [done..|].
  destruct sel; cbn [repository]; set_solver.
Qed.

(** ** What a handler leaves untouched *)

Section Frame.

Variable R : World -> World -> Prop.
Variable allowed : Action -> bool.
Variable env : Env.

Hypothesis R_refl : forall w, R w w.
Hypothesis R_trans : forall w1 w2 w3, R w1 w2 -> R w2 w3 -> R w1 w3.
Hypothesis R_record :
  forall w a, allowed a = true -> R w (logged w [a]).

Lemma respects_ret {A} (a : A) : respects R (ret a).
Proof. intros w. apply R_refl. Qed.

Lemma respects_lift {A} (r : outcome A) : respects R (lift r).
Proof. intros w. apply R_refl. Qed.

Lemma respects_history : respects R history.
Proof. intros w. apply R_refl. Qed.

Lemma respects_record a : allowed a = true -> respects R (record a).
Proof. intros H w. by apply R_record. Qed.

Lemma respects_bind {A B} (m : M A) (k : A -> M B) :
  respects R m -> (forall a, respects R (k a)) -> respects R (bind m k).
Proof.
  intros Hm Hk w. unfold bind. specialize (Hm w).
  destruct (m w) as [[a|e] w1]; cbn [snd] in *; [|done].
  eapply R_trans; [exact Hm|apply Hk].
Qed.

Create HintDb frame.
Hint Resolve respects_ret respects_lift respects_history respects_bind
  respects_record : frame.
Hint Extern 1 (allowed _ = true) => first [assumption | eauto] : frame.

Ltac frame_cases :=
  repeat match goal with
         | |- respects _ (if ?b then _ else _) => destruct b
         | |- respects _ (match ?x with _ => _ end) => destruct x
         | |- respects _ (bind _ _) => apply respects_bind; [|intros ?]
         end;
  eauto with frame.

Lemma respects_perform a : allowed a = true -> respects R (perform env a).
Proof. intros H. unfold perform. frame_cases. Qed.

Lemma respects_get_commits url :
  allowed (GetCommits url) = true -> respects R (get_commits env url).
Proof. intros H. unfold get_commits. frame_cases. Qed.

Lemma respects_get_color url :
  allowed (GetColor url) = true -> respects R (get_color env url).
Proof. intros H. unfold get_color. frame_cases. Qed.

Hint Resolve respects_perform respects_get_commits respects_get_color : frame.

Lemma respects_make_embed data :
  (forall url, allowed (GetCommits url) = true) ->
  respects R (make_embed env data).
Proof. intros H. unfold make_embed. frame_cases. Qed.

Lemma respects_make_color_embed hex :
  (forall url, allowed (GetColor url) = true) ->
  (forall text, allowed (Send (Some text) None) = true) ->
  respects R (make_color_embed env hex).
Proof. intros H1 H2. unfold make_color_embed. frame_cases. Qed.

Hypothesis R_delete :
  forall w k,
    R w {| issue_embeds := delete k (issue_embeds w); log := log w |}.

Lemma respects_dict_pop id : respects R (dict_pop id).
Proof.
  intros w. unfold dict_pop. destruct (issue_embeds w !! id); cbn [snd]; auto.
Qed.

Lemma respects_dict_pop_default id : respects R (dict_pop_default id).
Proof.
  intros w. unfold dict_pop_default.
  destruct (issue_embeds w !! id); cbn [snd]; auto.
Qed.

Hint Resolve respects_dict_pop respects_dict_pop_default : frame.

Lemma respects_cleanup id :
  allowed (RemoveReaction id trash) = true -> respects R (cleanup env id).
Proof. intros H. unfold cleanup. frame_cases. Qed.

Lemma respects_on_raw_reaction_add r :
  allowed (FetchUser (user_id r)) = true ->
  allowed (FetchMessage (channel_id r) (message_id r)) = true ->
  allowed (DeleteMessage (message_id r)) = true ->
  respects R (on_raw_reaction_add env r).
Proof.
  intros H1 H2 H3. unfold on_raw_reaction_add, fetch_user. frame_cases.
Qed.

Lemma respects_deliver rs :
  (forall uid, allowed (FetchUser uid) = true) ->
  (forall c m, allowed (FetchMessage c m) = true) ->
  (forall m, allowed (DeleteMessage m) = true) ->
  respects R (deliver env rs).
Proof.
  intros H1 H2 H3 w. unfold deliver. cbn [snd]. revert w.
  induction rs as [|r rs IH]; intros w; [apply R_refl|].
  cbn [fold_left]. eapply R_trans; [|apply IH].
  by apply respects_on_raw_reaction_add.
Qed.

End Frame.

Lemma lookups_app l1 l2 : lookups (l1 ++ l2) = lookups l1 ++ lookups l2.
Proof.
  induction l1 as [|a l1 IH]; [done|]. destruct a; cbn; by rewrite ?IH.
Qed.

Lemma slept_app l1 l2 : slept (l1 ++ l2) = (slept l1 + slept l2)%N.
Proof.
  induction l1 as [|a l1 IH]; [done|]. destruct a; cbn; rewrite ?IH; lia.
Qed.

(** The run of the body of the [async for], stage by stage. *)
Lemma show_issue_run env i w :
  show_issue env i w =
  match make_embed env i w with
  | (Raise x, w1) => (Raise x, w1)
  | (Ok embed, w1) =>
      let w2 := logged w1 [Send None (Some embed)] in
      match platform env (log w2) with
      | Raise x => (Raise x, w2)
      | Ok id =>
          let w3 := logged w2 [AddReaction id trash] in
          match platform env (log w3) with
          | Raise x => (Raise x, w3)
          | Ok _ =>
              let w4 := {| issue_embeds := <[id := 1%Z]> (issue_embeds w3);
                           log := log w3 ++ [Sleep 60] |} in
              cleanup env id (deliver env (asleep env (log w4)) w4).2
          end
      end
  end.
Proof.
  unfold show_issue. unfold bind at 1.
  destruct (make_embed env i w) as [[embed|x] w1]; [|done].
  unfold bind at 1. rewrite perform_run. cbv zeta. cbn [logged log].
  destruct (platform env _) as [id|x]; [|done].
  unfold bind at 1. rewrite perform_run. cbn [logged log].
  destruct (platform env _) as [z|x]; [|done].
  unfold bind at 1. rewrite register_run. cbn [issue_embeds log].
  unfold bind at 1. unfold sleep.
  cbv beta iota zeta delta [bind record history]. cbn [log issue_embeds].
  unfold deliver at 1. cbn [snd]. reflexivity.
Qed.

Lemma lookups_quiet l : forallb no_lookup l = true -> lookups l = [].
Proof.
  induction l as [|a l IH]; [done|]. cbn [forallb]. intros H.
  apply andb_true_iff in H as [Ha Hl]. destruct a; cbn; auto; done.
Qed.

Lemma quiet_same_lookups {A} (m : M A) : quiet m -> respects same_lookups m.
Proof.
  intros H w. destruct (H w) as (l & E & Q). unfold same_lookups.
  by rewrite E, lookups_app, (lookups_quiet l Q), app_nil_r.
Qed.

Lemma same_slept_record w a :
  no_sleep a = true -> same_slept w (logged w [a]).
Proof.
  intros H. unfold same_slept. cbn [logged log]. rewrite slept_app.
  destruct a; cbn; try lia; done.
Qed.

Lemma same_slept_refl w : same_slept w w.
Proof. reflexivity. Qed.

Lemma no_new_entry_refl w : no_new_entry w w.
Proof. unfold no_new_entry. set_solver. Qed.

Lemma same_registry_refl w : same_registry w w.
Proof. reflexivity. Qed.

Lemma same_slept_trans w1 w2 w3 :
  same_slept w1 w2 -> same_slept w2 w3 -> same_slept w1 w3.
Proof. unfold same_slept. congruence. Qed.

Lemma no_new_entry_trans w1 w2 w3 :
  no_new_entry w1 w2 -> no_new_entry w2 w3 -> no_new_entry w1 w3.
Proof. unfold no_new_entry. set_solver. Qed.

Lemma no_new_entry_delete w k :
  no_new_entry w {| issue_embeds := delete k (issue_embeds w); log := log w |}.
Proof. unfold no_new_entry. cbn. rewrite dom_delete. set_solver. Qed.

Lemma same_registry_trans w1 w2 w3 :
  same_registry w1 w2 -> same_registry w2 w3 -> same_registry w1 w3.
Proof. unfold same_registry. congruence. Qed.

Lemma make_embed_same_slept env data :
  respects same_slept (make_embed env data).
Proof.
  apply (respects_make_embed same_slept no_sleep);
    [apply same_slept_refl|apply same_slept_trans|apply same_slept_record
    |done].
Qed.

Lemma make_embed_same_registry env data :
  respects same_registry (make_embed env data).
Proof.
  apply (respects_make_embed same_registry (fun _ => true));
    [apply same_registry_refl|apply same_registry_trans|done|done].
Qed.

Lemma deliver_same_slept env rs : respects same_slept (deliver env rs).
Proof.
  apply (respects_deliver same_slept no_sleep);
    [apply same_slept_refl|apply same_slept_trans|apply same_slept_record
    |done..].
Qed.

Lemma deliver_no_new_entry env rs : respects no_new_entry (deliver env rs).
Proof.
  apply (respects_deliver no_new_entry (fun _ => true));
    [apply no_new_entry_refl|apply no_new_entry_trans
    |intros; unfold no_new_entry; cbn; set_solver
    |apply no_new_entry_delete|done..].
Qed.

(** What the body of the [async for] leaves behind: no lookup; a
    minute of sleep when it ends normally; no entry of the registry
    when it ends normally, and one at most when it raises. *)
Lemma show_issue_effects env i w :
  let r := (show_issue env i w).1 in
  let w' := (show_issue env i w).2 in
  lookups (log w') = lookups (log w) /\
  (r = Ok tt -> slept (log w') = (slept (log w) + 60)%N) /\
  (r = Ok tt -> dom (issue_embeds w') ⊆ dom (issue_embeds w)) /\
  exists id, dom (issue_embeds w') ⊆ dom (issue_embeds w) ∪ {[id]}.
Proof.
  cbv zeta. split; [apply (quiet_same_lookups _ (quiet_show_issue env i))|].
  rewrite show_issue_run.
  pose proof (make_embed_same_slept env i w) as Hs.
  pose proof (make_embed_same_registry env i w) as Hr.
  destruct (make_embed env i w) as [[embed|x] w1]; cbn [snd] in Hs, Hr;
    unfold same_slept, same_registry in Hs, Hr.
  2: { cbn [fst snd]. split_and!; [done|done|].
       exists 0%Z. rewrite Hr. set_solver. }
  cbv zeta. unfold logged. cbn [log issue_embeds].
  destruct (platform env _) as [id|x].
  2: { cbn [fst snd issue_embeds]. split_and!; [done|done|].
       exists 0%Z. rewrite Hr. set_solver. }
  destruct (platform env _) as [z|x].
  2: { cbn [fst snd issue_embeds]. split_and!; [done|done|].
       exists 0%Z. rewrite Hr. set_solver. }
  match goal with
  | |- context [deliver env ?rs ?w4] =>
      pose proof (deliver_same_slept env rs w4) as Hds;
      pose proof (deliver_no_new_entry env rs w4) as Hdn;
      set (w5 := (deliver env rs w4).2) in *
  end.
  unfold same_slept, no_new_entry in Hds, Hdn. cbn [log issue_embeds] in Hds, Hdn.
  rewrite dom_insert in Hdn. rewrite Hr in Hdn.
  rewrite !slept_app, Hs in Hds. cbn [slept] in Hds.
  rewrite cleanup_run.
  destruct (platform env _) as [z'|x];
    [destruct (issue_embeds w5 !! id) as [v|]|]; cbn [fst snd log issue_embeds].
  - split_and!.
    + intros _. rewrite slept_app, Hds. cbn [slept]. lia.
    + intros _. rewrite dom_delete. set_solver.
    + exists id. rewrite dom_delete. set_solver.
  - split_and!; [done|done|]. exists id. cbn. set_solver.
  - split_and!; [done|done|]. exists id. cbn. set_solver.
Qed.

Lemma for_matches_cons env consumer i0 matches w :
  for_matches env (i0 :: matches) consumer w =
  let w1 := logged w [GetIssue (match_url i0)] in
  let response := issue_response env (log w1) in
  if negb (status response =? 200)%N then
    (match platform env
             (log w1 ++ [Send (Some (error_notice (status response))) None]) with
     | Ok _ => Ok tt
     | Raise e => Raise e
     end,
     logged w1 [Send (Some (error_notice (status response))) None])
  else
    match consumer (json response) w1 with
    | (Ok _, w2) => for_matches env matches consumer w2
    | (Raise e, w2) => (Raise e, w2)
    end.
Proof.
  cbn [for_matches]. unfold bind at 1. unfold get_issue.
  cbv beta iota zeta delta [bind record history ret]. cbn [log issue_embeds].
  fold (match_url i0). unfold logged. cbn [log issue_embeds].
  destruct (negb _); [|reflexivity].
  match goal with
  | |- context [perform env ?a ?w0] => rewrite (perform_run env a w0)
  end.
  cbn [log logged issue_embeds]. by destruct (platform env _).
Qed.

Lemma for_matches_effects env consumer matches w :
  tidy_consumer consumer ->
  let r := (for_matches env matches consumer w).1 in
  let w' := (for_matches env matches consumer w).2 in
  (exists n,
      lookups (log w') = lookups (log w) ++ take n (map match_url matches)) /\
  (r = Ok tt -> (forall h, status (issue_response env h) = 200%N) ->
   lookups (log w') = lookups (log w) ++ map match_url matches /\
   slept (log w') = (slept (log w) + 60 * N.of_nat (length matches))%N) /\
  (r = Ok tt -> dom (issue_embeds w') ⊆ dom (issue_embeds w)) /\
  exists id, dom (issue_embeds w') ⊆ dom (issue_embeds w) ∪ {[id]}.
Proof.
  intros Hc. revert w. induction matches as [|i0 matches IH]; intros w.
  - cbn. split_and!.
    + exists 0. by rewrite app_nil_r.
    + intros _ _. rewrite app_nil_r. split; [done|lia].
    + done.
    + exists 0%Z. set_solver.
  - rewrite for_matches_cons. cbv zeta. unfold logged. cbn [log issue_embeds].
    destruct (negb _) eqn:Hs.
    + cbn [fst snd log issue_embeds]. split_and!.
      * exists 1. rewrite <- app_assoc, lookups_app. cbn.
        by rewrite take_0.
      * intros _ H. rewrite H in Hs. done.
      * done.
      * exists 0%Z. set_solver.
    + set (w1 := {| issue_embeds := issue_embeds w;
                    log := log w ++ [GetIssue (match_url i0)] |}).
      destruct (Hc (json (issue_response env (log w ++ [GetIssue (match_url i0)])))
                  w1) as (Hl & Hsl & Hd & id & Hid).
      destruct (consumer _ w1) as [[[]|e] w2]; cbn [fst snd] in *.
      * destruct (IH w2) as ((n & Hn) & Hall & Hdom & id' & Hid').
        subst w1. cbn [log issue_embeds] in *.
        rewrite lookups_app in Hl. cbn [lookups] in Hl.
        split_and!.
        -- exists (S n). rewrite Hn, Hl, <- app_assoc. done.
        -- intros Hr H200. destruct (Hall Hr H200) as [-> ->].
           rewrite Hl, <- app_assoc. split; [done|].
           rewrite (Hsl eq_refl), slept_app. cbn [slept length]. lia.
        -- intros Hr. specialize (Hdom Hr). specialize (Hd eq_refl).
           set_solver.
        -- exists id'. specialize (Hd eq_refl). set_solver.
      * subst w1. cbn [log issue_embeds] in *.
        rewrite lookups_app in Hl. cbn [lookups] in Hl.
        split_and!; [|done|done|].
        -- exists 1. rewrite Hl. cbn. by rewrite take_0.
        -- exists id. done.
Qed.

Lemma untouched_refl w : untouched w w.
Proof. done. Qed.

Lemma untouched_trans w1 w2 w3 :
  untouched w1 w2 -> untouched w2 w3 -> untouched w1 w3.
Proof. unfold untouched. intros (-> & -> & ->) (-> & -> & ->). done. Qed.

Lemma untouched_record w a :
  side_action a = true -> untouched w (logged w [a]).
Proof.
  intros H. unfold untouched, logged. cbn [log issue_embeds].
  rewrite lookups_app, slept_app.
  destruct a; try done; cbn; rewrite app_nil_r; split_and!; try done; lia.
Qed.

Lemma color_embed_untouched env hex :
  respects untouched
    (color_embed <- make_color_embed env hex ;;
     perform env (Send None color_embed) ;;; ret tt).
Proof.
  apply respects_bind; [apply untouched_trans| |intros color_embed].
  - apply (respects_make_color_embed untouched side_action);
      [apply untouched_refl|apply untouched_trans|apply untouched_record
      |done..].
  - apply respects_bind; [apply untouched_trans| |intros ?].
    + apply (respects_perform untouched side_action);
        [apply untouched_refl|apply untouched_trans|apply untouched_record
        |done].
    + apply respects_ret, untouched_refl.
Qed.

Lemma issue_urls_matches text :
  issue_urls text = map match_url (findall_lookahead issue_lookahead text).
Proof. unfold issue_urls, extracted. by rewrite map_map. Qed.

Lemma search_no_match text :
  re_search issue_pattern text = false ->
  findall_lookahead issue_lookahead text = [].
Proof.
  unfold re_search, findall_lookahead. rewrite search_findall.
  by destruct (findall_from _ _ _).
Qed.

Lemma show_issue_tidy env : tidy_consumer (show_issue env).
Proof. intros i w. apply show_issue_effects. Qed.

Lemma bind_run {A B} (m : M A) (k : A -> M B) w :
  bind m k w =
  match m w with
  | (Ok a, w1) => k a w1
  | (Raise e, w1) => (Raise e, w1)
  end.
Proof. reflexivity. Qed.

Lemma on_message_body_effects env message w :
  let r := (on_message_body env message w).1 in
  let w' := (on_message_body env message w).2 in
  (exists n,
      lookups (log w') = lookups (log w) ++ take n (issue_urls (content message))) /\
  (r = Ok tt -> (forall h, status (issue_response env h) = 200%N) ->
   lookups (log w') = lookups (log w) ++ issue_urls (content message) /\
   slept (log w') =
     (slept (log w) + 60 * N.of_nat (length (issue_urls (content message))))%N) /\
  (r = Ok tt -> dom (issue_embeds w') ⊆ dom (issue_embeds w)) /\
  exists id, dom (issue_embeds w') ⊆ dom (issue_embeds w) ∪ {[id]}.
Proof.
  cbv zeta. unfold on_message_body.
  set (first_part := if re_match color_pattern (content message) then _ else _).
  rewrite (bind_run first_part).
  assert (untouched w (first_part w).2) as (Hl & Hs & Hr).
  { subst first_part. destruct (re_match _ _);
      [apply color_embed_untouched|apply untouched_refl]. }
  destruct (first_part w) as [[[]|e] w1]; cbn [fst snd] in *.
  2: { rewrite Hl, Hr. split_and!; [|done|done|].
       - exists 0. by rewrite take_0, app_nil_r.
       - exists 0%Z. set_solver. }
  rewrite issue_urls_matches, length_map.
  destruct (re_search _ _) eqn:Hsearch.
  - unfold get_github_issues.
    destruct (for_matches_effects env (show_issue env)
                (findall_lookahead issue_lookahead (content message)) w1
                (show_issue_tidy env)) as (H1 & H2 & H3 & H4).
    rewrite <- Hl, <- Hs, <- Hr. done.
  - rewrite (search_no_match _ Hsearch). unfold ret. cbn [fst snd map length].
    rewrite Hl, Hs, Hr, app_nil_r. split_and!.
    + exists 0. by rewrite app_nil_r.
    + intros _ _. split; [done|lia].
    + done.
    + exists 0%Z. set_solver.
Qed.

(** ** The lookups, the sleep and the registry of on_message *)

Lemma on_message_effects env message w :
  let r := (on_message env message w).1 in
  let w' := (on_message env message w).2 in
  (exists n,
      lookups (log w') = lookups (log w) ++ take n (issue_urls (content message))) /\
  (human_authored message = true -> r = Ok tt ->
   (forall h, status (issue_response env h) = 200%N) ->
   lookups (log w') = lookups (log w) ++ issue_urls (content message) /\
   slept (log w') =
     (slept (log w) + 60 * N.of_nat (length (issue_urls (content message))))%N) /\
  (r = Ok tt -> dom (issue_embeds w') ⊆ dom (issue_embeds w)) /\
  exists id, dom (issue_embeds w') ⊆ dom (issue_embeds w) ∪ {[id]}.
Proof.
  cbv zeta. unfold on_message, user_only.
  destruct (human_authored message).
  - destruct (on_message_body_effects env message w) as (H1 & H2 & H3 & H4).
    split_and!; auto.
  - unfold ret. cbn [fst snd]. split_and!; [|done|done|].
    + exists 0. by rewrite take_0, app_nil_r.
    + exists 0%Z. set_solver.
Qed.

(** X8: whatever the outside world answers, the issues on_message
    looks up are a prefix of the references of the message, in their
    order: none is skipped, reordered or looked up twice, and nothing
    else is looked up. *)
Theorem lookups_follow_references env (message : Message) (w : World) :
  exists n,
    lookups (log (on_message env message w).2)
    = lookups (log w) ++ take n (issue_urls (content message)).
Proof. apply on_message_effects. Qed.

(** X9: when every issue lookup is answered with status 200 and
    on_message ends normally on a user's message, it has looked up every
    reference of the message, in order, and has slept 60 seconds for
    each of them. *)
Theorem every_reference_shown env (message : Message) (w : World) :
  human_authored message = true ->
  (forall h, status (issue_response env h) = 200%N) ->
  (on_message env message w).1 = Ok tt ->
  let w' := (on_message env message w).2 in
  lookups (log w') = lookups (log w) ++ issue_urls (content message) /\
  slept (log w') =
    (slept (log w) + 60 * N.of_nat (length (extracted (content message))))%N.
Proof.
  intros Hh H200 Hr. cbv zeta.
  destruct (on_message_effects env message w) as (_ & H & _).
  destruct (H Hh Hr H200) as [-> ->]. unfold issue_urls. by rewrite length_map.
Qed.

Lemma every_reference_shown_witness :
  let env := simple_env 200 200 open_issue [] in
  let w' := (on_message env (human (lit "#1 #2e")) start).2 in
  lookups (log w')
  = [issue_url (lit "omega-numworks/omega") (lit "1");
     issue_url (lit "numworks/epsilon") (lit "2")] /\
  slept (log w') = 120%N.
Proof.
  exact (every_reference_shown (simple_env 200 200 open_issue [])
           (human (lit "#1 #2e")) start eq_refl (fun _ => eq_refl) eq_refl).
Defined.

(** X10: a run of on_message that ends normally leaves no entry in
    issue_embeds that was not there before: every embed it registered
    is unregistered again. *)
Theorem handled_message_leaves_no_entry env (message : Message) (w : World) :
  (on_message env message w).1 = Ok tt ->
  dom (issue_embeds (on_message env message w).2) ⊆ dom (issue_embeds w).
Proof. apply on_message_effects. Qed.

Lemma handled_message_leaves_no_entry_witness :
  dom (issue_embeds
         (on_message (simple_env 200 200 open_issue []) (human (lit "#1 #2e")) start).2)
  ⊆ dom (issue_embeds start).
Proof.
  apply (handled_message_leaves_no_entry (simple_env 200 200 open_issue [])
           (human (lit "#1 #2e")) start).
  vm_compute. reflexivity.
Defined.

(** X11: however on_message ends, an exception included, it leaves
    one new entry at most in issue_embeds. *)
Theorem at_most_one_entry_left env (message : Message) (w : World) :
  exists id,
    dom (issue_embeds (on_message env message w).2)
    ⊆ dom (issue_embeds w) ∪ {[id]}.
Proof. apply on_message_effects. Qed.

(** ** make_embed: failures, requests and fields *)

(** X12: make_embed raises in three places and nowhere else, the
    truncation of the commits included: on a [null] body, with
    TypeError (line 56); else on the commits of a pull request, with
    the exception of the request or of the comprehension over its
    answer (an object instead of the array, a [null] committer); else
    on a closed issue whose "Closed by" line cannot be built (closed_at
    or closed_by null, or a date strptime rejects), with the exception
    of that line. *)
Theorem make_embed_failures env (data : IssueData) (w : World) (ex : exn) :
  (make_embed env data w).1 = Raise ex <->
  (body data = None /\ ex = TypeError) \/
  (body data <> None /\
   exists pr,
     pull_request data = Some pr /\
     formatted_commits
       (commits_response env
          (log w ++ [GetCommits (pr_url pr ++ lit "/commits")]))
     = Raise ex) \/
  (body data <> None /\
   (forall pr,
       pull_request data = Some pr ->
       exists formatted,
         formatted_commits
           (commits_response env
              (log w ++ [GetCommits (pr_url pr ++ lit "/commits")]))
         = Ok formatted) /\
   state data = lit "closed" /\ closed_line env data = Raise ex).
Proof.
  destruct (make_embed env data w) as [r w'] eqn:Hrun. cbn [fst].
  apply make_embed_shape in Hrun.
  destruct (body data) as [text|].
  2: { destruct Hrun as [-> _]. split.
       - intros [= <-]. by left.
       - intros [[_ ->] | [[H _] | [H _]]]; done. }
  destruct Hrun as (cf & Hcf & Hr).
  destruct (pull_request data) as [pr|].
  - destruct Hcf as [_ Hcf].
    destruct (formatted_commits _) as [formatted|ex1] eqn:Hf.
    + destruct Hcf as (v & _ & ->).
      destruct (bool_decide (state data = lit "closed")) eqn:Hc.
      * apply bool_decide_eq_true in Hc.
        destruct (closed_line env data) as [line|ex2].
        -- destruct Hr as (e & lines & -> & _). split; [done|].
           intros [[[=] _] | [(_ & pr' & [= <-] & H) | (_ & _ & _ & H)]];
             congruence.
        -- subst r. split.
           ++ intros [= <-]. right. right. split_and!; [done| |done..].
              intros pr' [= <-]. eauto.
           ++ intros [[[=] _] | [(_ & pr' & [= <-] & H) | (_ & _ & _ & H)]];
                congruence.
      * apply bool_decide_eq_false in Hc.
        destruct Hr as (e & lines & -> & _). split; [done|].
        intros [[[=] _] | [(_ & pr' & [= <-] & H) | (_ & _ & Hs & _)]];
          [congruence|done].
    + subst cf r. split.
      * intros [= <-]. right. left. split; [done|]. eauto.
      * intros [[[=] _] | [(_ & pr' & [= <-] & H) | (_ & Hall & _)]];
          [congruence|].
        destruct (Hall pr eq_refl) as (formatted & H). congruence.
  - destruct Hcf as [_ ->].
    destruct (bool_decide (state data = lit "closed")) eqn:Hc.
    + apply bool_decide_eq_true in Hc.
      destruct (closed_line env data) as [line|ex2].
      * destruct Hr as (e & lines & -> & _). split; [done|].
        intros [[[=] _] | [(_ & pr' & [=] & _) | (_ & _ & _ & [=])]].
      * subst r. split.
        -- intros [= <-]. right. right. split_and!; done.
        -- intros [[[=] _] | [(_ & pr' & [=] & _) | (_ & _ & _ & [= <-])]].
           done.
    + apply bool_decide_eq_false in Hc.
      destruct Hr as (e & lines & -> & _). split; [done|].
      intros [[[=] _] | [(_ & pr' & [=] & _) | (_ & _ & Hs & _)]]. done.
Qed.

(** The commits of a pull request: an answer that is no success, a
    request that fails and a commit without committer each end
    make_embed, after the request; an empty object gives an empty
    Commits field. *)
Example commits_failures :
  let request :=
    GetCommits (lit "https://api.github.com/repos/omega-numworks/omega/pulls/2/commits") in
  make_embed (commits_env (Ok not_found)) open_pull start
  = (Raise TypeError, logged start [request]) /\
  make_embed (commits_env (Raise ClientError)) open_pull start
  = (Raise ClientError, logged start [request]) /\
  make_embed (commits_env (Ok (CommitArray [commit_of_size 3;
                                            unknown_committer])))
    open_pull start
  = (Raise TypeError, logged start [request]) /\
  exists e,
    (make_embed (commits_env (Ok (JsonObject []))) open_pull start).1 = Ok e /\
    fields e !! 0 = Some {| name := lit "Commits"; value := [] |}.
Proof.
  cbv zeta. split_and!; [vm_compute; reflexivity..|].
  eexists. split; vm_compute; reflexivity.
Qed.

(** X13: make_embed never touches issue_embeds, and the only request
    it makes is the one for the commits of a pull request whose body is
    a text, also when it raises afterwards; on a [null] body it raises
    before the request. *)
Theorem make_embed_requests env (data : IssueData) (w : World) :
  let w' := (make_embed env data w).2 in
  issue_embeds w' = issue_embeds w /\
  log w' = log w ++
           match body data, pull_request data with
           | Some _, Some pr => [GetCommits (pr_url pr ++ lit "/commits")]
           | _, _ => []
           end.
Proof.
  cbv zeta. destruct (make_embed env data w) as [r w'] eqn:Hrun.
  apply make_embed_shape in Hrun. cbn [snd].
  destruct (body data) as [text|].
  - destruct Hrun as (cf & Hcf & _).
    destruct (pull_request data) as [pr|].
    + by destruct Hcf as (-> & _).
    + destruct Hcf as (-> & _). by rewrite app_nil_r.
  - destruct Hrun as [_ ->]. by rewrite app_nil_r.
Qed.

(** X14: the embed make_embed returns has the field "Commits" exactly
    when the issue is a pull request, and then before the field
    "Additional informations", which is always there. *)
Theorem make_embed_field_names env (data : IssueData) (w : World) (e : Embed) :
  (make_embed env data w).1 = Ok e ->
  map name (fields e)
  = match pull_request data with
    | Some _ => [lit "Commits"; lit "Additional informations"]
    | None => [lit "Additional informations"]
    end.
Proof.
  intros Hrun.
  apply make_embed_ok in Hrun as (text & cf & lines & _ & _ & -> & Hcf).
  destruct (pull_request data) as [pr|].
  - by destruct Hcf as (formatted & v & _ & _ & ->).
  - by rewrite Hcf.
Qed.

Lemma make_embed_field_names_witness :
  exists e,
    (make_embed (simple_env 200 200 open_pull twelve_commits) open_pull start).1
    = Ok e /\
    map name (fields e) = [lit "Commits"; lit "Additional informations"].
Proof.
  eexists. split; [vm_compute; reflexivity|].
  refine (make_embed_field_names
            (simple_env 200 200 open_pull twelve_commits) open_pull start _ _).
  vm_compute. reflexivity.
Defined.

(** ** on_raw_reaction_add: what a reaction can do *)

(** X15: a reaction deletes no message but its own, and only when its
    emoji is the wastebasket, its message has an entry in issue_embeds
    and its user is no bot. *)
Theorem reaction_deletes_registered_only env (r : RawReaction) (w : World)
    (m : Z) :
  In (DeleteMessage m) (log (on_raw_reaction_add env r w).2) ->
  In (DeleteMessage m) (log w) \/
  (m = message_id r /\ emoji_name r = trash /\
   is_Some (issue_embeds w !! m) /\
   user_is_bot env (log w ++ [FetchUser (user_id r)]) = false).
Proof.
  rewrite on_raw_reaction_add_run. cbv zeta.
  assert (Hfetch : In (DeleteMessage m) (log w ++ [FetchUser (user_id r)]) ->
                   In (DeleteMessage m) (log w)).
  { rewrite in_app_iff. intros [H|[H|[]]]; [done|discriminate]. }
  destruct (platform env _); [|by cbn; auto].
  destruct (user_is_bot env _) eqn:Hbot; [by cbn; auto|].
  destruct (bool_decide _) eqn:Htrash; [|by cbn; auto].
  apply bool_decide_eq_true in Htrash.
  destruct (issue_embeds w !! message_id r) as [v|] eqn:Hv; [|by cbn; auto].
  destruct (negb _); [|by cbn; auto].
  destruct (platform env _); cbn [snd logged log]; rewrite in_app_iff.
  - intros [H|[H|[H|[]]]]; [by auto|discriminate|].
    injection H as <-. right. rewrite Hv. eauto.
  - intros [H|[H|[]]]; [by auto|discriminate].
Qed.

Lemma reaction_deletes_registered_only_witness :
  In (DeleteMessage 2) (log (registered 2)) \/
  (2%Z = message_id (dismissal 2) /\ emoji_name (dismissal 2) = trash /\
   is_Some (issue_embeds (registered 2) !! 2%Z) /\
   user_is_bot (simple_env 200 200 open_issue [])
     (log (registered 2) ++ [FetchUser (user_id (dismissal 2))]) = false).
Proof.
  apply (reaction_deletes_registered_only (simple_env 200 200 open_issue [])
           (dismissal 2) (registered 2) 2).
  vm_compute. auto.
Defined.

(** X16: a reaction of a bot, or with another emoji, or on a message
    without entry in issue_embeds, does nothing beyond the fetch of its
    user: the registry stays as it is. *)
Theorem ignored_reaction env (r : RawReaction) (w : World) :
  user_is_bot env (log w ++ [FetchUser (user_id r)]) = true \/
  emoji_name r <> trash \/
  issue_embeds w !! message_id r = None ->
  (on_raw_reaction_add env r w).2 = logged w [FetchUser (user_id r)].
Proof.
  rewrite on_raw_reaction_add_run. cbv zeta. intros H.
  destruct (platform env _); [|done].
  destruct (user_is_bot env _); [done|].
  destruct (bool_decide _) eqn:Htrash; [|done].
  apply bool_decide_eq_true in Htrash.
  destruct H as [H|[H|H]]; [done|done|]. by rewrite H.
Qed.

Lemma ignored_reaction_witness :
  (on_raw_reaction_add (simple_env 200 200 open_issue []) (thumbs_up 2)
     (registered 2)).2
  = logged (registered 2) [FetchUser 1].
Proof.
  apply (ignored_reaction (simple_env 200 200 open_issue []) (thumbs_up 2)
           (registered 2)).
  right. left. vm_compute. discriminate.
Defined.

(** X17: a reaction leaves the entries of all other messages in
    issue_embeds as they are. *)
Theorem reaction_keeps_other_entries env (r : RawReaction) (w : World)
    (k : Z) :
  k <> message_id r ->
  issue_embeds (on_raw_reaction_add env r w).2 !! k = issue_embeds w !! k.
Proof.
  intros Hk. rewrite on_raw_reaction_add_run. cbv zeta.
  destruct (platform env _); [|done].
  destruct (user_is_bot env _); [done|].
  destruct (bool_decide _); [|done].
  destruct (issue_embeds w !! message_id r) as [v|] eqn:Hv; [|done].
  destruct (negb _); [|by cbn; rewrite lookup_delete_ne].
  destruct (platform env _); cbn; by rewrite lookup_delete_ne.
Qed.

Lemma reaction_keeps_other_entries_witness :
  issue_embeds
    (on_raw_reaction_add (simple_env 200 200 open_issue []) (dismissal 3)
       {| issue_embeds := {[2%Z := 1%Z; 3%Z := 1%Z]}; log := [] |}).2 !! 2%Z
  = Some 1%Z.
Proof.
  rewrite (reaction_keeps_other_entries (simple_env 200 200 open_issue [])
             (dismissal 3)
             {| issue_embeds := {[2%Z := 1%Z; 3%Z := 1%Z]}; log := [] |} 2)
    by discriminate.
  vm_compute. reflexivity.
Defined.

(** ** make_color_embed on a colour code *)

Lemma hex_digit_cases c :
  hex_digit c = true ->
  (48 <= c <= 57 \/ 65 <= c <= 70 \/ 97 <= c <= 102)%N.
Proof.
  unfold hex_digit, range, ch. cbn [N_of_ascii N_of_digits].
  rewrite !orb_true_iff, !andb_true_iff, !N.leb_le. cbn. lia.
Qed.

Lemma hex_val_bound c : hex_digit c = true -> (0 <= hex_val c < 16)%Z.
Proof.
  intros H. apply hex_digit_cases in H. unfold hex_val, range, ch.
  cbn [N_of_ascii N_of_digits]. cbn.
  repeat match goal with
         | |- context [(?a <=? ?b)%N] => destruct (N.leb_spec a b)
         end; cbn [andb]; lia.
Qed.

Lemma hex_digit_kept c chars :
  hex_digit c = true ->
  forallb (fun x => negb (hex_digit x)) chars = true ->
  contains c chars = false.
Proof.
  intros Hc. unfold contains. induction chars as [|x chars IH]; [done|].
  cbn [forallb existsb]. intros [Hx Hr]%andb_true_iff.
  rewrite (IH Hr), orb_false_r. apply N.eqb_neq. intros ->.
  by rewrite Hc in Hx.
Qed.

Lemma fold_hex_bound h acc :
  forallb hex_digit h = true -> (0 <= acc)%Z ->
  (0 <= fold_left (fun a c => a * 16 + hex_val c) h acc
   < (acc + 1) * 16 ^ Z.of_nat (length h))%Z.
Proof.
  revert acc. induction h as [|c h IH]; intros acc Hh Hacc.
  - cbn. lia.
  - cbn [forallb] in Hh. apply andb_true_iff in Hh as [Hc Hh].
    pose proof (hex_val_bound c Hc) as Hv.
    cbn [fold_left length]. specialize (IH (acc * 16 + hex_val c)%Z Hh).
    rewrite Nat2Z.inj_succ, Z.pow_succ_r by lia.
    assert (0 <= 16 ^ Z.of_nat (length h))%Z by (apply Z.pow_nonneg; lia).
    nia.
Qed.

Lemma int16_hex h tail :
  h <> [] -> forallb hex_digit h = true ->
  tail = [] \/ tail = nl ->
  exists c,
    int16 (h ++ tail) = Ok c /\ (0 <= c < 16 ^ Z.of_nat (length h))%Z.
Proof.
  intros Hne Hh Htail. unfold int16.
  assert (Hs : strip [32; 9; 10; 11; 12; 13]%N (h ++ tail) = h).
  { apply strip_tail; [by destruct Htail as [-> | ->]|done|].
    apply forallb_forall. intros c Hc. apply negb_true_iff.
    apply hex_digit_kept; [|done].
    rewrite forallb_forall in Hh. auto. }
  rewrite Hs. destruct h as [|c h]; [done|]. rewrite Hh.
  eexists. split; [done|]. pose proof (fold_hex_bound (c :: h) 0 Hh).
  lia.
Qed.

Lemma lstrip_hash h tail :
  h <> [] -> forallb hex_digit h = true ->
  lstrip (lit "#") (ch "#" :: h ++ tail) = h ++ tail.
Proof.
  intros Hne Hh. destruct h as [|c h]; [done|].
  cbn [forallb] in Hh. apply andb_true_iff in Hh as [Hc _].
  change (lit "#") with [ch "#"]. cbn [lstrip app].
  assert (contains (ch "#") [ch "#"] = true) as -> by done.
  by rewrite (hex_digit_kept c [ch "#"] Hc).
Qed.

(** X18: for a text that passed the colour test and a lookup answered
    with status 200, make_color_embed asks for the six hexadecimal
    digits of the text (followed by the line feed, if the text ends with
    one) and returns an embed whose colour is a number below 0x1000000;
    [int(hex_code, base=16)] does not raise. *)
Theorem color_embed_made env (text : str) (w : World) :
  re_match color_pattern text = true ->
  let hex_code := lstrip (lit "#") text in
  let w' := logged w [GetColor (lit "https://www.thecolorapi.com/id?hex="
                                ++ hex_code)] in
  status (color_response env (log w')) = 200%N ->
  (exists h, length h = 6 /\ (hex_code = h \/ hex_code = h ++ nl)) /\
  exists e c,
    make_color_embed env hex_code w = (Ok (Some e), w') /\
    color e = Some c /\ (0 <= c < 16777216)%Z.
Proof.
  intros Hm hex_code w' Hs.
  apply color_pattern_spec in Hm as (h & Hlen & Hh & Htext).
  assert (Hne : h <> []) by (by destruct h).
  assert (exists tail, (tail = [] \/ tail = nl) /\ hex_code = h ++ tail)
    as (tail & Htail & Hcode).
  { subst hex_code. destruct Htext as [-> | ->].
    - exists []. split; [by left|].
      rewrite <- (app_nil_r h) at 1. by apply lstrip_hash.
    - exists nl. split; [by right|]. by apply lstrip_hash. }
  split.
  { exists h. split; [done|]. rewrite Hcode.
    destruct Htail as [-> | ->]; [left; by rewrite app_nil_r|by right]. }
  destruct (int16_hex h tail Hne Hh Htail) as (c & Hc & Hbound).
  rewrite Hlen in Hbound. rewrite <- Hcode in Hc.
  cbv beta iota zeta delta [make_color_embed bind get_color record history
                              ret lift].
  cbn [log issue_embeds]. subst w'. unfold logged in Hs. cbn [log] in Hs.
  rewrite Hs. cbn [N.eqb Pos.eqb]. rewrite Hc.
  eexists _, c. split; [reflexivity|]. split; [done|]. done.
Qed.

Lemma color_embed_made_witness :
  exists e c,
    make_color_embed (simple_env 200 200 open_issue []) (lit "a1B2c3") start
    = (Ok (Some e),
       logged start [GetColor (lit "https://www.thecolorapi.com/id?hex=a1B2c3")])
    /\ color e = Some c /\ (0 <= c < 16777216)%Z.
Proof.
  exact (proj2 (color_embed_made (simple_env 200 200 open_issue [])
                  (lit "#a1B2c3") start eq_refl eq_refl)).
Defined.

(** ** The moderation cog *)

Lemma lit_inj s1 s2 : lit s1 = lit s2 -> s1 = s2.
Proof.
  unfold lit. intros H.
  rewrite <- (string_of_list_ascii_of_string s1),
          <- (string_of_list_ascii_of_string s2).
  f_equal. revert H.
  generalize (list_ascii_of_string s1) (list_ascii_of_string s2).
  induction l as [|a l IH]; intros [|b l']; try done.
  cbn [map]. intros [= Hab Hl]. f_equal; [|by apply IH].
  by rewrite <- (ascii_N_embedding a), <- (ascii_N_embedding b), Hab.
Qed.

Lemma str_of_int_inj n1 n2 : str_of_int n1 = str_of_int n2 -> n1 = n2.
Proof.
  unfold str_of_int. intros H%lit_inj.
  assert (Hnil : forall n, N.to_uint n <> Decimal.Nil).
  { intros [|p]; [done|apply DecimalPos.Unsigned.to_uint_nonnil]. }
  apply (f_equal NilZero.uint_of_string) in H.
  rewrite !NilZero.usu in H by apply Hnil. injection H as H.
  by apply DecimalN.Unsigned.to_uint_inj.
Qed.

Lemma uint_digits d :
  forallb digit (lit (NilZero.string_of_uint d)) = true.
Proof.
  assert (H : forall d, forallb digit (lit (NilEmpty.string_of_uint d)) = true).
  { intros d'. induction d' as [|d' IH|d' IH|d' IH|d' IH|d' IH|d' IH|d' IH
                                |d' IH|d' IH|d' IH]; [done|..];
      cbn [NilEmpty.string_of_uint]; unfold lit in *;
      cbn [list_ascii_of_string map forallb]; by rewrite IH. }
  destruct d; try apply H. done.
Qed.

Lemma str_of_int_digits n : forallb digit (str_of_int n) = true.
Proof. apply uint_digits. Qed.

Lemma moderation_run (env : Env) (Pattern : Type)
    (fullmatch : Pattern -> str -> bool) ps message w :
  moderation_on_message env Pattern fullmatch ps message w =
  match ps !! str_of_int (posted_channel_id message) with
  | Some pattern =>
      if posted_by_human message && negb (fullmatch pattern (posted_content message))
      then (match platform env (log w ++ [DeleteMessage (posted_id message)]) with
            | Ok _ => Ok tt
            | Raise e => Raise e
            end, logged w [DeleteMessage (posted_id message)])
      else (Ok tt, w)
  | None => (Ok tt, w)
  end.
Proof.
  unfold moderation_on_message, moderation_body.
  destruct (posted_by_human message); cbn [andb];
    destruct (ps !! _) as [pattern|]; try done.
  destruct (negb _); [|done].
  unfold bind. rewrite perform_run. by destruct (platform env _).
Qed.

Lemma compile_items_spec (Pattern : Type) (compile : str -> option Pattern)
    items acc :
  NoDup (items.*1) ->
  match compile_items Pattern compile items acc with
  | Some ps =>
      Forall (fun item => is_Some (compile item.2)) items /\
      forall k p,
        ps !! k = Some p <->
        (exists pattern, (k, pattern) ∈ items /\ compile pattern = Some p) \/
        ((k ∉ items.*1) /\ acc !! k = Some p)
  | None => exists k pattern, (k, pattern) ∈ items /\ compile pattern = None
  end.
Proof.
  revert acc. induction items as [|[k0 pat0] items IH]; intros acc Hnd.
  - cbn. split; [done|]. intros k p. split; [|set_solver].
    intros H. right. split; [set_solver|done].
  - cbn [compile_items]. cbn [fmap list_fmap fst] in Hnd.
    apply NoDup_cons in Hnd as [Hk0 Hnd].
    destruct (compile pat0) as [c0|] eqn:Hc0.
    2: { exists k0, pat0. split; [set_solver|done]. }
    specialize (IH (<[k0 := c0]> acc) Hnd).
    destruct (compile_items Pattern compile items _) as [ps|].
    + destruct IH as [Hall Hps]. split.
      { constructor; [|done]. cbn. by rewrite Hc0. }
      intros k p. rewrite Hps. split.
      * intros [(pat & Hin & Hc) | [Hk Hacc]].
        -- left. exists pat. split; [set_solver|done].
        -- destruct (decide (k = k0)) as [->|Hne].
           ++ rewrite lookup_insert_eq in Hacc. injection Hacc as <-.
              left. exists pat0. split; [set_solver|done].
           ++ rewrite lookup_insert_ne in Hacc by done.
              right. split; [|done]. cbn. set_solver.
      * intros [(pat & Hin & Hc) | [Hk Hacc]].
        -- apply elem_of_cons in Hin as [[= -> ->] | Hin].
           ++ right. split; [done|].
              rewrite lookup_insert_eq. congruence.
           ++ left. eauto.
        -- right. cbn in Hk. apply not_elem_of_cons in Hk as [Hne Hk].
           split; [done|]. by rewrite lookup_insert_ne.
    + destruct IH as (k & pat & Hin & Hc). exists k, pat.
      split; [set_solver|done].
Qed.

(** X19: the moderation cog deletes no message but the one it
    handles, and only when a user wrote it, its channel has a pattern
    and the pattern does not match the whole content. *)
Theorem moderation_deletes_mismatch_only (env : Env) (Pattern : Type)
    (fullmatch : Pattern -> str -> bool) (ps : gmap str Pattern)
    (message : Posted) (w : World) (m : Z) :
  In (DeleteMessage m)
     (log (moderation_on_message env Pattern fullmatch ps message w).2) ->
  In (DeleteMessage m) (log w) \/
  (m = posted_id message /\ posted_by_human message = true /\
   exists pattern,
     ps !! str_of_int (posted_channel_id message) = Some pattern /\
     fullmatch pattern (posted_content message) = false).
Proof.
  rewrite moderation_run.
  destruct (ps !! _) as [pattern|]; [|by auto].
  destruct (posted_by_human message); [|by auto]. cbn [andb].
  destruct (fullmatch pattern _) eqn:Hf; [by auto|]. cbn [negb snd logged log].
  rewrite in_app_iff. intros [H|[[= <-]|[]]]; [by auto|].
  right. split_and!; eauto.
Qed.

Lemma moderation_deletes_mismatch_only_witness :
  In (DeleteMessage 5) (log start) \/
  (5%Z = posted_id (posted (lit "12a") 7) /\
   posted_by_human (posted (lit "12a") 7) = true /\
   exists pattern,
     numbers_only !! str_of_int 7 = Some pattern /\
     re_fullmatch pattern (lit "12a") = false).
Proof.
  apply (moderation_deletes_mismatch_only (simple_env 200 200 open_issue [])
           regex re_fullmatch numbers_only (posted (lit "12a") 7) start 5).
  vm_compute. auto.
Defined.

(** X20: the pattern set for a channel has no effect on a message of
    another channel ([str] of two different ids gives two different
    keys). *)
Theorem moderation_channel_isolation (env : Env) (Pattern : Type)
    (fullmatch : Pattern -> str -> bool) (ps : gmap str Pattern)
    (c : N) (pattern : Pattern) (message : Posted) (w : World) :
  posted_channel_id message <> c ->
  moderation_on_message env Pattern fullmatch (<[str_of_int c := pattern]> ps)
    message w
  = moderation_on_message env Pattern fullmatch ps message w.
Proof.
  intros Hc. rewrite !moderation_run. rewrite lookup_insert_ne; [done|].
  intros H%str_of_int_inj. done.
Qed.

Lemma moderation_channel_isolation_witness :
  moderation_on_message (simple_env 200 200 open_issue []) regex re_fullmatch
    (<[str_of_int 7 := Plus digit]> ∅) (posted (lit "12a") 8) start
  = moderation_on_message (simple_env 200 200 open_issue []) regex
      re_fullmatch ∅ (posted (lit "12a") 8) start.
Proof.
  apply (moderation_channel_isolation (simple_env 200 200 open_issue [])
           regex re_fullmatch ∅ 7 (Plus digit) (posted (lit "12a") 8) start).
  discriminate.
Defined.

(** X21: an entry of regex_patterns whose key is not made of decimal
    digits is never used: [str(message.channel.id)] cannot be that
    key. *)
Theorem non_decimal_key_never_applies (env : Env) (Pattern : Type)
    (fullmatch : Pattern -> str -> bool) (ps : gmap str Pattern)
    (key : str) (pattern : Pattern) (message : Posted) (w : World) :
  forallb digit key = false ->
  moderation_on_message env Pattern fullmatch (<[key := pattern]> ps)
    message w
  = moderation_on_message env Pattern fullmatch ps message w.
Proof.
  intros Hk. rewrite !moderation_run. rewrite lookup_insert_ne; [done|].
  intros ->. by rewrite str_of_int_digits in Hk.
Qed.

Lemma non_decimal_key_never_applies_witness :
  moderation_on_message (simple_env 200 200 open_issue []) regex re_fullmatch
    (<[lit "#7" := Plus digit]> ∅) (posted (lit "12a") 7) start
  = moderation_on_message (simple_env 200 200 open_issue []) regex
      re_fullmatch ∅ (posted (lit "12a") 7) start.
Proof.
  apply (non_decimal_key_never_applies (simple_env 200 200 open_issue [])
           regex re_fullmatch ∅ (lit "#7") (Plus digit)
           (posted (lit "12a") 7) start).
  vm_compute. reflexivity.
Defined.

(** X22: [__init__] compiles every pattern of the configuration: if
    one of them does not compile the cog is not built, and otherwise
    regex_patterns has, for each channel of the configuration, the
    compiled form of its pattern, and nothing else. *)
Theorem moderation_init_compiles_every_pattern (Pattern : Type)
    (compile : str -> option Pattern) (items : list (str * str)) :
  NoDup (items.*1) ->
  match moderation_init Pattern compile items with
  | Some regex_patterns =>
      Forall (fun item => is_Some (compile item.2)) items /\
      forall chan_id compiled,
        regex_patterns !! chan_id = Some compiled <->
        exists pattern,
          (chan_id, pattern) ∈ items /\ compile pattern = Some compiled
  | None => exists chan_id pattern,
      (chan_id, pattern) ∈ items /\ compile pattern = None
  end.
Proof.
  intros Hnd. unfold moderation_init.
  pose proof (compile_items_spec Pattern compile items ∅ Hnd) as H.
  destruct (compile_items Pattern compile items ∅) as [ps|]; [|done].
  destruct H as [Hall Hps]. split; [done|]. intros k p. rewrite Hps.
  split; [|by left]. intros [H|[_ H]]; [done|]. by rewrite lookup_empty in H.
Qed.

Lemma moderation_init_compiles_every_pattern_witness :
  match moderation_init regex compile_numbers
          [(lit "7", lit "[0-9]+"); (lit "8", lit "[0-9]+")] with
  | Some regex_patterns =>
      Forall (fun item => is_Some (compile_numbers item.2))
             [(lit "7", lit "[0-9]+"); (lit "8", lit "[0-9]+")] /\
      forall chan_id compiled,
        regex_patterns !! chan_id = Some compiled <->
        exists pattern,
          (chan_id, pattern) ∈ [(lit "7", lit "[0-9]+"); (lit "8", lit "[0-9]+")]
          /\ compile_numbers pattern = Some compiled
  | None => exists chan_id pattern,
      (chan_id, pattern) ∈ [(lit "7", lit "[0-9]+"); (lit "8", lit "[0-9]+")]
      /\ compile_numbers pattern = None
  end.
Proof.
  apply (moderation_init_compiles_every_pattern regex compile_numbers
           [(lit "7", lit "[0-9]+"); (lit "8", lit "[0-9]+")]).
  cbn. repeat constructor; set_solver.
Defined.
